(** * Edge attribute conversion operators (sharp / seam / bevel weight)

    A shallow embedding of the Blender add-on's operators: the helper
    [ensure_bevel_layer], the general operator
    [MESH_OT_convert_edge_attributes] and the four quick operators.

    The host (Blender) is modelled as an explicit [World]: the active object,
    the interaction mode, the edit-mesh (a shared mutable BMesh, edges
    addressed by handle), the list of reports shown to the user, and a log of
    the host calls that mutate or enumerate the mesh, in program order. *)

From Stdlib Require Import Floats.PrimFloat.
From stdpp Require Import gmap strings list pretty.

Local Open Scope string_scope.

(** ** The BMesh data model *)

(** A custom-data layer of [bm.edges.layers]: the dedicated bevel-weight
    layer, or a generic float layer found by name. *)
Inductive BMLayerItem : Type :=
| LayerBevelWeight
| LayerFloat (name : string).

#[global] Instance BMLayerItem_eq_dec : EqDecision BMLayerItem.
Proof. solve_decision. Defined.

#[global] Instance BMLayerItem_countable : Countable BMLayerItem.
Proof.
  refine (inj_countable'
            (fun l => match l with
                      | LayerBevelWeight => None
                      | LayerFloat n => Some n
                      end)
            (fun o => match o with
                      | None => LayerBevelWeight
                      | Some n => LayerFloat n
                      end) _).
  intros []; reflexivity.
Defined.

(** A BMEdge: the three flags the operators read and write, and the edge's
    custom-data block (one float slot per layer; an unwritten slot reads as
    the default 0.0). *)
Record BMEdge : Type := mkBMEdge {
  select : bool;
  smooth : bool;
  seam : bool;
  layer_data : gmap BMLayerItem float
}.

(** The edit-mesh.  [has_bevel_weight_attr] says whether this Blender version
    exposes [bm.edges.layers.bevel_weight]; [edge_layers] is the set of
    allocated edge layers. *)
Record BMesh : Type := mkBMesh {
  edges : list BMEdge;
  has_bevel_weight_attr : bool;
  edge_layers : gset BMLayerItem
}.

Definition set_edges (es : list BMEdge) (bm : BMesh) : BMesh :=
  mkBMesh es (has_bevel_weight_attr bm) (edge_layers bm).

Definition add_layer (l : BMLayerItem) (bm : BMesh) : BMesh :=
  mkBMesh (edges bm) (has_bevel_weight_attr bm) ({[ l ]} ∪ edge_layers bm).

(** [edge[layer]] *)
Definition getitem (e : BMEdge) (l : BMLayerItem) : float :=
  default 0%float (layer_data e !! l).

Definition isSharp (e : BMEdge) : bool := negb (smooth e).
Definition isSeam (e : BMEdge) : bool := seam e.

(** ** The host *)

Record Object : Type := mkObject { type : string }.

Inductive ReportType : Type := WARNING | INFO.
Inductive Outcome : Type := FINISHED | CANCELLED.

(** Host calls that enumerate or mutate the edit-mesh, or switch mode. *)
Inductive HostCall : Type :=
| mode_set_call (m : string)
| from_edit_mesh_call
| layers_bevel_weight_verify_call
| layers_float_get_call (name : string)
| layers_float_new_call (name : string)
| edges_iter_call
| edge_setitem_call (edge : nat) (l : BMLayerItem) (v : float)
| edge_set_smooth_call (edge : nat) (b : bool)
| edge_set_seam_call (edge : nat) (b : bool)
| update_edit_mesh_call.

(** [edit_mesh] is the BMesh that [bmesh.from_edit_mesh(obj.data)] hands out
    for the active object; it is shared, so every write is visible in the
    world at once, whatever the operator returns afterwards. *)
Record World : Type := mkWorld {
  active_object : option Object;
  mode : string;
  edit_mesh : BMesh;
  reports : list (ReportType * string);
  calls : list HostCall
}.

Definition set_mode (m : string) (w : World) : World :=
  mkWorld (active_object w) m (edit_mesh w) (reports w) (calls w).
Definition set_edit_mesh (bm : BMesh) (w : World) : World :=
  mkWorld (active_object w) (mode w) bm (reports w) (calls w).
Definition add_report (r : ReportType * string) (w : World) : World :=
  mkWorld (active_object w) (mode w) (edit_mesh w) (reports w ++ [r]) (calls w).
Definition add_call (c : HostCall) (w : World) : World :=
  mkWorld (active_object w) (mode w) (edit_mesh w) (reports w) (calls w ++ [c]).

(** ** Exceptions and the operator monad *)

Inductive exn : Type := AttributeError | ReferenceError | TypeError.

#[global] Instance exn_eq_dec : EqDecision exn.
Proof. solve_decision. Defined.

(** A computation runs on the world and either raises or returns; the world
    it leaves behind is kept in both cases. *)
Definition M (A : Type) : Type := World -> (exn + A) * World.

Definition ret {A} (a : A) : M A := fun w => (inr a, w).
Definition raise {A} (e : exn) : M A := fun w => (inl e, w).
Definition bind {A B} (c : M A) (k : A -> M B) : M B :=
  fun w => match c w with
           | (inl e, w') => (inl e, w')
           | (inr a, w') => k a w'
           end.

Notation "'do' x <- c ; k" := (bind c (fun x => k))
  (at level 10, x name, c at level 100, k at level 200).
Notation "c ;; k" := (bind c (fun _ => k))
  (at level 100, k at level 200, right associativity).

(** [try: body except ex: handler] *)
Definition try_except {A} (body : M A) (ex : exn) (handler : M A) : M A :=
  fun w => match body w with
           | (inl e, w') => if decide (e = ex) then handler w' else (inl e, w')
           | (inr a, w') => (inr a, w')
           end.

Definition log (c : HostCall) : M unit := fun w => (inr tt, add_call c w).
Definition report (t : ReportType) (msg : string) : M unit :=
  fun w => (inr tt, add_report (t, msg) w).
Definition get_world : M World := fun w => (inr w, w).
Definition modify_bm (f : BMesh -> BMesh) : M unit :=
  fun w => (inr tt, set_edit_mesh (f (edit_mesh w)) w).

(** ** Host primitives *)

(** [bpy.ops.object.mode_set(mode='EDIT')] on a mesh object. *)
Definition mode_set_EDIT : M unit :=
  log (mode_set_call "EDIT") ;; fun w => (inr tt, set_mode "EDIT_MESH" w).

Definition from_edit_mesh : M unit := log from_edit_mesh_call.

(** [bm.edges.layers.bevel_weight.verify()]: the attribute lookup raises
    AttributeError where the host has no such collection; otherwise the layer
    is created when absent and returned. *)
Definition layers_bevel_weight_verify : M BMLayerItem :=
  do w <- get_world;
  if has_bevel_weight_attr (edit_mesh w)
  then log layers_bevel_weight_verify_call ;;
       modify_bm (add_layer LayerBevelWeight) ;;
       ret LayerBevelWeight
  else raise AttributeError.

(** [bm.edges.layers.float.get(name)] *)
Definition layers_float_get (name : string) : M (option BMLayerItem) :=
  log (layers_float_get_call name) ;;
  do w <- get_world;
  if decide (LayerFloat name ∈ edge_layers (edit_mesh w))
  then ret (Some (LayerFloat name))
  else ret None.

(** [bm.edges.layers.float.new(name)]; only ever called for a free name. *)
Definition layers_float_new (name : string) : M BMLayerItem :=
  log (layers_float_new_call name) ;;
  modify_bm (add_layer (LayerFloat name)) ;;
  ret (LayerFloat name).

(** [[edge for edge in bm.edges if edge.select]]: the handles (positions in
    [bm.edges]) of the selected edges, in mesh order. *)
Fixpoint select_from (i : nat) (es : list BMEdge) : list nat :=
  match es with
  | [] => []
  | e :: rest =>
      if select e then i :: select_from (S i) rest else select_from (S i) rest
  end.

Definition selected_edges_of (bm : BMesh) : list nat := select_from 0 (edges bm).

Definition collect_selected_edges : M (list nat) :=
  log edges_iter_call ;;
  do w <- get_world;
  ret (selected_edges_of (edit_mesh w)).

(** Reading through an edge handle; a dead handle raises ReferenceError. *)
Definition edge_read {A} (f : BMEdge -> A) (edge : nat) : M A :=
  do w <- get_world;
  match edges (edit_mesh w) !! edge with
  | Some e => ret (f e)
  | None => raise ReferenceError
  end.

Definition edge_write (f : BMEdge -> BMEdge) (edge : nat) : M unit :=
  do w <- get_world;
  match edges (edit_mesh w) !! edge with
  | Some e => modify_bm (fun bm => set_edges (<[edge := f e]> (edges bm)) bm)
  | None => raise ReferenceError
  end.

Definition edge_smooth : nat -> M bool := edge_read smooth.
Definition edge_seam : nat -> M bool := edge_read seam.

Definition with_smooth (b : bool) (e : BMEdge) : BMEdge :=
  mkBMEdge (select e) b (seam e) (layer_data e).
Definition with_seam (b : bool) (e : BMEdge) : BMEdge :=
  mkBMEdge (select e) (smooth e) b (layer_data e).
Definition with_item (l : BMLayerItem) (v : float) (e : BMEdge) : BMEdge :=
  mkBMEdge (select e) (smooth e) (seam e) (<[l := v]> (layer_data e)).

(** [edge.smooth = b] *)
Definition edge_set_smooth (edge : nat) (b : bool) : M unit :=
  log (edge_set_smooth_call edge b) ;; edge_write (with_smooth b) edge.

(** [edge.seam = b] *)
Definition edge_set_seam (edge : nat) (b : bool) : M unit :=
  log (edge_set_seam_call edge b) ;; edge_write (with_seam b) edge.

(** [edge[layer] = v]; indexing an edge with [None] is a TypeError. *)
Definition edge_setitem (edge : nat) (layer : option BMLayerItem) (v : float)
  : M unit :=
  match layer with
  | None => raise TypeError
  | Some l => log (edge_setitem_call edge l v) ;; edge_write (with_item l v) edge
  end.

Definition update_edit_mesh : M unit := log update_edit_mesh_call.

(** [for edge in selected_edges: ...], the counter threaded through. *)
Fixpoint for_edges (selected_edges : list nat) (body : nat -> nat -> M nat)
  (modified_count : nat) : M nat :=
  match selected_edges with
  | [] => ret modified_count
  | edge :: rest =>
      do c <- body edge modified_count;
      for_edges rest body c
  end.

(** ** The add-on *)

(** [ensure_bevel_layer(bm)] *)
Definition ensure_bevel_layer : M BMLayerItem :=
  try_except
    layers_bevel_weight_verify
    AttributeError
    (do layer <- layers_float_get "bevel_weight_edge";
     match layer with
     | Some l => ret l
     | None => layers_float_new "bevel_weight_edge"
     end).

(** The items of the [conversion_type] EnumProperty. *)
Inductive ConversionType : Type :=
| SHARP_TO_BEVEL
| SHARP_TO_SEAM
| SEAM_TO_SHARP
| SEAM_TO_BEVEL.

Definition identifier (ct : ConversionType) : string :=
  match ct with
  | SHARP_TO_BEVEL => "SHARP_TO_BEVEL"
  | SHARP_TO_SEAM => "SHARP_TO_SEAM"
  | SEAM_TO_SHARP => "SEAM_TO_SHARP"
  | SEAM_TO_BEVEL => "SEAM_TO_BEVEL"
  end.

(** Python's [sub in s] on strings. *)
Definition str_in (sub s : string) : bool :=
  match String.index 0 sub s with
  | Some _ => true
  | None => false
  end.

(** [obj is None or obj.type != 'MESH'] *)
Definition not_a_mesh (obj : option Object) : bool :=
  match obj with
  | None => true
  | Some o => negb (String.eqb (type o) "MESH")
  end.

Definition msg_select_mesh : string := "请选择一个网格物体".
Definition msg_no_edges : string := "没有选中的边".

Module MESH_OT_convert_edge_attributes.

Definition msg_done (modified_count : nat) : string :=
  "成功转换 " +:+ pretty modified_count +:+ " 条边".

(** The body of the [for] loop. *)
Definition body (conversion_type : ConversionType) (clear_original : bool)
  (bw_layer : option BMLayerItem) (edge modified_count : nat) : M nat :=
  if String.eqb (identifier conversion_type) "SHARP_TO_BEVEL" then
    do sm <- edge_smooth edge;
    if Bool.eqb sm false then
      edge_setitem edge bw_layer 1%float ;;
      let modified_count := modified_count + 1 in
      if clear_original
      then edge_set_smooth edge true ;; ret modified_count
      else ret modified_count
    else ret modified_count
  else if String.eqb (identifier conversion_type) "SHARP_TO_SEAM" then
    do sm <- edge_smooth edge;
    if Bool.eqb sm false then
      edge_set_seam edge true ;;
      let modified_count := modified_count + 1 in
      if clear_original
      then edge_set_smooth edge true ;; ret modified_count
      else ret modified_count
    else ret modified_count
  else if String.eqb (identifier conversion_type) "SEAM_TO_SHARP" then
    do se <- edge_seam edge;
    if se then
      edge_set_smooth edge false ;;
      let modified_count := modified_count + 1 in
      if clear_original
      then edge_set_seam edge false ;; ret modified_count
      else ret modified_count
    else ret modified_count
  else if String.eqb (identifier conversion_type) "SEAM_TO_BEVEL" then
    do se <- edge_seam edge;
    if se then
      edge_setitem edge bw_layer 1%float ;;
      let modified_count := modified_count + 1 in
      if clear_original
      then edge_set_seam edge false ;; ret modified_count
      else ret modified_count
    else ret modified_count
  else ret modified_count.

Definition execute (conversion_type : ConversionType) (clear_original : bool)
  : M Outcome :=
  do context <- get_world;
  if not_a_mesh (active_object context) then
    report WARNING msg_select_mesh ;;
    ret CANCELLED
  else
    (if negb (String.eqb (mode context) "EDIT_MESH")
     then mode_set_EDIT else ret tt) ;;
    from_edit_mesh ;;
    do bw_layer <-
      (if str_in "BEVEL" (identifier conversion_type)
       then do l <- ensure_bevel_layer; ret (Some l)
       else ret None);
    do selected_edges <- collect_selected_edges;
    match selected_edges with
    | [] =>
        report WARNING msg_no_edges ;;
        ret CANCELLED
    | _ :: _ =>
        do modified_count <-
          for_edges selected_edges
            (body conversion_type clear_original bw_layer) 0;
        update_edit_mesh ;;
        report INFO (msg_done modified_count) ;;
        ret FINISHED
    end.

End MESH_OT_convert_edge_attributes.

Definition msg_quick_done (modified_count : nat) : string :=
  "转换了 " +:+ pretty modified_count +:+ " 条边".

Module MESH_OT_quick_convert_sharp_to_bevel.

Definition body (clear_original : bool) (bw_layer : BMLayerItem)
  (edge modified_count : nat) : M nat :=
  do sm <- edge_smooth edge;
  if Bool.eqb sm false then
    edge_setitem edge (Some bw_layer) 1%float ;;
    let modified_count := modified_count + 1 in
    if clear_original
    then edge_set_smooth edge true ;; ret modified_count
    else ret modified_count
  else ret modified_count.

Definition execute (clear_original : bool) : M Outcome :=
  do context <- get_world;
  if not_a_mesh (active_object context) then
    report WARNING msg_select_mesh ;;
    ret CANCELLED
  else
    (if negb (String.eqb (mode context) "EDIT_MESH")
     then mode_set_EDIT else ret tt) ;;
    from_edit_mesh ;;
    do bw_layer <- ensure_bevel_layer;
    do selected_edges <- collect_selected_edges;
    match selected_edges with
    | [] =>
        report WARNING msg_no_edges ;;
        ret CANCELLED
    | _ :: _ =>
        do modified_count <-
          for_edges selected_edges (body clear_original bw_layer) 0;
        update_edit_mesh ;;
        report INFO (msg_quick_done modified_count) ;;
        ret FINISHED
    end.

End MESH_OT_quick_convert_sharp_to_bevel.

Module MESH_OT_quick_convert_sharp_to_seam.

Definition body (clear_original : bool) (edge modified_count : nat) : M nat :=
  do sm <- edge_smooth edge;
  if Bool.eqb sm false then
    edge_set_seam edge true ;;
    let modified_count := modified_count + 1 in
    if clear_original
    then edge_set_smooth edge true ;; ret modified_count
    else ret modified_count
  else ret modified_count.

Definition execute (clear_original : bool) : M Outcome :=
  do context <- get_world;
  if not_a_mesh (active_object context) then
    report WARNING msg_select_mesh ;;
    ret CANCELLED
  else
    (if negb (String.eqb (mode context) "EDIT_MESH")
     then mode_set_EDIT else ret tt) ;;
    from_edit_mesh ;;
    do selected_edges <- collect_selected_edges;
    match selected_edges with
    | [] =>
        report WARNING msg_no_edges ;;
        ret CANCELLED
    | _ :: _ =>
        do modified_count <-
          for_edges selected_edges (body clear_original) 0;
        update_edit_mesh ;;
        report INFO (msg_quick_done modified_count) ;;
        ret FINISHED
    end.

End MESH_OT_quick_convert_sharp_to_seam.

Module MESH_OT_quick_convert_seam_to_sharp.

Definition body (clear_original : bool) (edge modified_count : nat) : M nat :=
  do se <- edge_seam edge;
  if se then
    edge_set_smooth edge false ;;
    let modified_count := modified_count + 1 in
    if clear_original
    then edge_set_seam edge false ;; ret modified_count
    else ret modified_count
  else ret modified_count.

Definition execute (clear_original : bool) : M Outcome :=
  do context <- get_world;
  if not_a_mesh (active_object context) then
    report WARNING msg_select_mesh ;;
    ret CANCELLED
  else
    (if negb (String.eqb (mode context) "EDIT_MESH")
     then mode_set_EDIT else ret tt) ;;
    from_edit_mesh ;;
    do selected_edges <- collect_selected_edges;
    match selected_edges with
    | [] =>
        report WARNING msg_no_edges ;;
        ret CANCELLED
    | _ :: _ =>
        do modified_count <-
          for_edges selected_edges (body clear_original) 0;
        update_edit_mesh ;;
        report INFO (msg_quick_done modified_count) ;;
        ret FINISHED
    end.

End MESH_OT_quick_convert_seam_to_sharp.

Module MESH_OT_quick_convert_seam_to_bevel.

Definition body (clear_original : bool) (bw_layer : BMLayerItem)
  (edge modified_count : nat) : M nat :=
  do se <- edge_seam edge;
  if se then
    edge_setitem edge (Some bw_layer) 1%float ;;
    let modified_count := modified_count + 1 in
    if clear_original
    then edge_set_seam edge false ;; ret modified_count
    else ret modified_count
  else ret modified_count.

Definition execute (clear_original : bool) : M Outcome :=
  do context <- get_world;
  if not_a_mesh (active_object context) then
    report WARNING msg_select_mesh ;;
    ret CANCELLED
  else
    (if negb (String.eqb (mode context) "EDIT_MESH")
     then mode_set_EDIT else ret tt) ;;
    from_edit_mesh ;;
    do bw_layer <- ensure_bevel_layer;
    do selected_edges <- collect_selected_edges;
    match selected_edges with
    | [] =>
        report WARNING msg_no_edges ;;
        ret CANCELLED
    | _ :: _ =>
        do modified_count <-
          for_edges selected_edges (body clear_original bw_layer) 0;
        update_edit_mesh ;;
        report INFO (msg_quick_done modified_count) ;;
        ret FINISHED
    end.

End MESH_OT_quick_convert_seam_to_bevel.

(** ** Specification-side vocabulary *)

(** The conversion-rule table of the specification, read per edge. *)
Definition source_predicate (ct : ConversionType) (e : BMEdge) : bool :=
  match ct with
  | SHARP_TO_BEVEL | SHARP_TO_SEAM => isSharp e
  | SEAM_TO_SHARP | SEAM_TO_BEVEL => isSeam e
  end.

Definition touches_bevel (ct : ConversionType) : bool :=
  match ct with
  | SHARP_TO_BEVEL | SEAM_TO_BEVEL => true
  | SHARP_TO_SEAM | SEAM_TO_SHARP => false
  end.

Definition sharp_sourced (ct : ConversionType) : bool :=
  match ct with
  | SHARP_TO_BEVEL | SHARP_TO_SEAM => true
  | SEAM_TO_SHARP | SEAM_TO_BEVEL => false
  end.

Definition destination_mutation (ct : ConversionType)
  (bw_layer : option BMLayerItem) (e : BMEdge) : BMEdge :=
  match ct with
  | SHARP_TO_BEVEL | SEAM_TO_BEVEL =>
      match bw_layer with
      | Some l => with_item l 1%float e
      | None => e
      end
  | SHARP_TO_SEAM => with_seam true e
  | SEAM_TO_SHARP => with_smooth false e
  end.

Definition clear_source (ct : ConversionType) (e : BMEdge) : BMEdge :=
  match ct with
  | SHARP_TO_BEVEL | SHARP_TO_SEAM => with_smooth true e
  | SEAM_TO_SHARP | SEAM_TO_BEVEL => with_seam false e
  end.

(** What one pass of a rule does to one visited edge. *)
Definition convert_edge (ct : ConversionType) (clearOriginal : bool)
  (bw_layer : option BMLayerItem) (e : BMEdge) : BMEdge :=
  if source_predicate ct e then
    let e' := destination_mutation ct bw_layer e in
    if clearOriginal then clear_source ct e' else e'
  else e.

(** ... and to the whole edge sequence: only selected edges are visited. *)
Definition convert_selected (ct : ConversionType) (clearOriginal : bool)
  (bw_layer : option BMLayerItem) (es : list BMEdge) : list BMEdge :=
  (fun e => if select e then convert_edge ct clearOriginal bw_layer e else e) <$> es.

(** Number of handles in [sel] whose edge satisfies the rule's source
    predicate in mesh [bm]. *)
Definition satisfies_source (ct : ConversionType) (bm : BMesh) (edge : nat) : bool :=
  from_option (source_predicate ct) false (edges bm !! edge).

Definition count_source (ct : ConversionType) (bm : BMesh) (sel : list nat) : nat :=
  length (List.filter (satisfies_source ct bm) sel).

(** The layer through which the bevel weight of this mesh is read and
    written: the dedicated layer where the host has it, the generic float
    layer otherwise. *)
Definition bevel_layer_of (bm : BMesh) : BMLayerItem :=
  if has_bevel_weight_attr bm then LayerBevelWeight
  else LayerFloat "bevel_weight_edge".

Definition bevelWeight (bm : BMesh) (e : BMEdge) : float :=
  getitem e (bevel_layer_of bm).

Definition valid_target (w : World) : Prop := not_a_mesh (active_object w) = false.

Definition is_edge_write (c : HostCall) : bool :=
  match c with
  | edge_setitem_call _ _ _ | edge_set_smooth_call _ _ | edge_set_seam_call _ _ => true
  | _ => false
  end.

Definition is_layer_call (c : HostCall) : bool :=
  match c with
  | layers_bevel_weight_verify_call | layers_float_get_call _
  | layers_float_new_call _ => true
  | _ => false
  end.

(** The world when the operator has the edit-mesh in hand: edit mode entered
    if need be, [from_edit_mesh] called. *)
Definition enter_edit (w : World) : World :=
  add_call from_edit_mesh_call
    (if negb (String.eqb (mode w) "EDIT_MESH")
     then set_mode "EDIT_MESH" (add_call (mode_set_call "EDIT") w)
     else w).

(** The four quick operators, indexed by the rule each one hard-codes. *)
Definition quick_execute (ct : ConversionType) : bool -> M Outcome :=
  match ct with
  | SHARP_TO_BEVEL => MESH_OT_quick_convert_sharp_to_bevel.execute
  | SHARP_TO_SEAM => MESH_OT_quick_convert_sharp_to_seam.execute
  | SEAM_TO_SHARP => MESH_OT_quick_convert_seam_to_sharp.execute
  | SEAM_TO_BEVEL => MESH_OT_quick_convert_seam_to_bevel.execute
  end.

Local Open Scope list_scope.

(** The host calls [ensure_bevel_layer] makes on a mesh. *)
Definition ensure_calls (bm : BMesh) : list HostCall :=
  if has_bevel_weight_attr bm then [layers_bevel_weight_verify_call]
  else if decide (LayerFloat "bevel_weight_edge" ∈ edge_layers bm)
       then [layers_float_get_call "bevel_weight_edge"]
       else [layers_float_get_call "bevel_weight_edge";
             layers_float_new_call "bevel_weight_edge"].

Definition ensured_world (w : World) : World :=
  mkWorld (active_object w) (mode w)
    (add_layer (bevel_layer_of (edit_mesh w)) (edit_mesh w))
    (reports w) (calls w ++ ensure_calls (edit_mesh w)).

Definition bw_layer_for (ct : ConversionType) (bm : BMesh) : option BMLayerItem :=
  if touches_bevel ct then Some (bevel_layer_of bm) else None.

Definition ensured_mesh (ct : ConversionType) (bm : BMesh) : BMesh :=
  if touches_bevel ct then add_layer (bevel_layer_of bm) bm else bm.

Definition prologue_calls (ct : ConversionType) (w : World) : list HostCall :=
  (if negb (String.eqb (mode w) "EDIT_MESH") then [mode_set_call "EDIT"] else [])
  ++ [from_edit_mesh_call]
  ++ (if touches_bevel ct then ensure_calls (edit_mesh w) else []).

(** The world at the moment the selected edges are about to be collected. *)
Definition prologue_world (ct : ConversionType) (w : World) : World :=
  mkWorld (active_object w) "EDIT_MESH" (ensured_mesh ct (edit_mesh w))
    (reports w) (calls w ++ prologue_calls ct w).

(** The mesh a finished pass leaves behind. *)
Definition converted_mesh (ct : ConversionType) (co : bool) (bm : BMesh) : BMesh :=
  set_edges (convert_selected ct co (bw_layer_for ct bm) (edges bm))
    (ensured_mesh ct bm).

(** What follows the prologue in the general operator; the wording [msg] of
    the final report is the only thing the quick operators change. *)
Definition main_pass (msg : nat -> string) (ct : ConversionType) (co : bool)
  (bw_layer : option BMLayerItem) : M Outcome :=
  do selected_edges <- collect_selected_edges;
  match selected_edges with
  | [] => report WARNING msg_no_edges ;; ret CANCELLED
  | _ :: _ =>
      do modified_count <-
        for_edges selected_edges
          (MESH_OT_convert_edge_attributes.body ct co bw_layer) 0;
      update_edit_mesh ;;
      report INFO (msg modified_count) ;;
      ret FINISHED
  end.

(** What a write through handle [i] leaves behind: edge [i] replaced by
    [e'], some edge-write calls logged, everything else as before. *)
Record edge_step (i : nat) (e' : BMEdge) (w w' : World) : Prop := mk_edge_step {
  step_active_object : active_object w' = active_object w;
  step_mode : mode w' = mode w;
  step_reports : reports w' = reports w;
  step_attr : has_bevel_weight_attr (edit_mesh w') = has_bevel_weight_attr (edit_mesh w);
  step_layers : edge_layers (edit_mesh w') = edge_layers (edit_mesh w);
  step_edges : edges (edit_mesh w') = <[i := e']> (edges (edit_mesh w));
  step_calls : exists t, calls w' = calls w ++ t /\ forallb is_edge_write t = true
}.

(** The state after the loop over the handles [sel]: every visited edge
    converted once, every other edge as it was, only edge writes logged. *)
Record loop_post (ct : ConversionType) (co : bool) (bw : option BMLayerItem)
  (sel : list nat) (w w' : World) : Prop := mk_loop_post {
  loop_active_object : active_object w' = active_object w;
  loop_mode : mode w' = mode w;
  loop_reports : reports w' = reports w;
  loop_attr : has_bevel_weight_attr (edit_mesh w') = has_bevel_weight_attr (edit_mesh w);
  loop_layers : edge_layers (edit_mesh w') = edge_layers (edit_mesh w);
  loop_edges : forall j,
    edges (edit_mesh w') !! j =
    if decide (j ∈ sel)
    then convert_edge ct co bw <$> edges (edit_mesh w) !! j
    else edges (edit_mesh w) !! j;
  loop_calls : exists t, calls w' = calls w ++ t /\ forallb is_edge_write t = true
}.

(** The world a finished pass leaves behind. *)
Record finished_post (msg : nat -> string) (ct : ConversionType) (co : bool)
  (w w' : World) : Prop :=
  mk_finished_post {
  fin_active_object : active_object w' = active_object w;
  fin_mode : mode w' = "EDIT_MESH"%string;
  fin_mesh : edit_mesh w' = converted_mesh ct co (edit_mesh w);
  fin_reports :
    reports w' =
    reports w ++
    [(INFO, msg (count_source ct (edit_mesh w)
                   (selected_edges_of (edit_mesh w))))];
  fin_calls : exists t,
    calls w' =
    calls w ++ prologue_calls ct w ++ [edges_iter_call] ++ t ++ [update_edit_mesh_call]
    /\ forallb is_edge_write t = true
}.

Definition cancelled_world (ct : ConversionType) (w : World) : World :=
  add_report (WARNING, msg_no_edges) (add_call edges_iter_call (prologue_world ct w)).

(** Host calls that enumerate the edges or write through an edge handle. *)
Definition is_capture (c : HostCall) : bool :=
  match c with
  | edges_iter_call => true
  | _ => false
  end.

Definition touches_edges (c : HostCall) : bool := is_capture c || is_edge_write c.

(** The ordering discipline of a run from [w] to [w'] that uses layer [h]:
    the calls logged split around the one enumeration of the edges; before
    it no edge is enumerated or written, and the calls before it are exactly
    those up to the end of [ensure_bevel_layer], which returned [h] and left
    a mesh that holds [h]; after it no layer is looked up or allocated and
    the edges are not enumerated again. *)
Definition storage_before_capture (w : World) (h : BMLayerItem) (w' : World)
  : Prop :=
  exists (pre post : list HostCall) (w1 : World),
    calls w' = calls w ++ pre ++ edges_iter_call :: post
    /\ forallb (fun c => negb (touches_edges c)) pre = true
    /\ ensure_bevel_layer (enter_edit w) = (inr h, w1)
    /\ calls w1 = calls w ++ pre
    /\ h ∈ edge_layers (edit_mesh w1)
    /\ forallb (fun c => negb (is_layer_call c || is_capture c)) post = true.

(** Agreement of a quick run [q] with the general run [g]: the same outcome
    and the same world, except that a finished run words its one INFO report
    differently, around the same count. *)
Definition quick_agrees (g q : (exn + Outcome) * World) : Prop :=
  (q = g /\ g.1 = inr CANCELLED)
  \/ (exists (n : nat) (w3 : World),
        g = (inr FINISHED,
             add_report (INFO, MESH_OT_convert_edge_attributes.msg_done n) w3)
        /\ q = (inr FINISHED, add_report (INFO, msg_quick_done n) w3)).

(** ** The five operators as one family *)

Inductive Operator : Type := General | Quick.

(** [run_op General ct] is the general operator with [conversion_type = ct];
    [run_op Quick ct] is the quick operator that hard-codes [ct]. *)
Definition run_op (o : Operator) (ct : ConversionType) (co : bool) : M Outcome :=
  match o with
  | General => MESH_OT_convert_edge_attributes.execute ct co
  | Quick => quick_execute ct co
  end.

Definition msg_of (o : Operator) : nat -> string :=
  match o with
  | General => MESH_OT_convert_edge_attributes.msg_done
  | Quick => msg_quick_done
  end.

(** The three ways a run can go. *)
Inductive run_shape (msg : nat -> string) (ct : ConversionType) (co : bool)
  (w : World) : (exn + Outcome) * World -> Prop :=
| shape_invalid :
    not_a_mesh (active_object w) = true ->
    run_shape msg ct co w
      (inr CANCELLED, add_report (WARNING, msg_select_mesh) w)
| shape_empty :
    valid_target w ->
    selected_edges_of (edit_mesh w) = [] ->
    run_shape msg ct co w (inr CANCELLED, cancelled_world ct w)
| shape_finished (w' : World) :
    valid_target w ->
    selected_edges_of (edit_mesh w) ≠ [] ->
    finished_post msg ct co w w' ->
    run_shape msg ct co w (inr FINISHED, w').

(** The host calls a run from [w] to [w'] has added to the log. *)
Definition new_calls (w w' : World) : list HostCall :=
  drop (length (calls w)) (calls w').

Definition is_update (c : HostCall) : bool :=
  match c with
  | update_edit_mesh_call => true
  | _ => false
  end.

Definition is_mode_set (c : HostCall) : bool :=
  match c with
  | mode_set_call _ => true
  | _ => false
  end.

(** ** The panels *)

Module VIEW3D_PT_edge_conversion_tools.

(** [context.active_object is not None and context.active_object.type == 'MESH'] *)
Definition poll (context : World) : bool :=
  match active_object context with
  | None => false
  | Some obj => String.eqb (type obj) "MESH"
  end.

End VIEW3D_PT_edge_conversion_tools.

Module VIEW3D_PT_edge_conversion_object_tools.

Definition poll (context : World) : bool :=
  match active_object context with
  | None => false
  | Some obj => String.eqb (type obj) "MESH"
  end.

End VIEW3D_PT_edge_conversion_object_tools.

(** ** Registration *)

(** The part of [bpy] that registration touches: the properties defined on
    [bpy.types.Scene] (by name) and the registered classes, in registration
    order.  [register_class] refuses a class that is registered already,
    [unregister_class] one that is not, and [del] of a missing attribute
    raises AttributeError. *)
Module Registration.

Inductive exn : Type := ValueError | RuntimeError | AttributeError.

Record Bpy : Type := mkBpy {
  scene_props : gset string;
  registered : list string
}.

Definition R (A : Type) : Type := Bpy -> (exn + A) * Bpy.

Definition rret {A} (a : A) : R A := fun b => (inr a, b).
Definition rbind {A B} (c : R A) (k : A -> R B) : R B :=
  fun b => match c b with
           | (inl e, b') => (inl e, b')
           | (inr a, b') => k a b'
           end.

(** [try: body except: pass] *)
Definition try_pass (body : R unit) : R unit :=
  fun b => match body b with
           | (inl _, b') => (inr tt, b')
           | (inr a, b') => (inr a, b')
           end.

(** [bpy.types.Scene.<name> = BoolProperty(...)] *)
Definition set_scene_prop (name : string) : R unit :=
  fun b => (inr tt, mkBpy ({[ name ]} ∪ scene_props b) (registered b)).

(** [del bpy.types.Scene.<name>] *)
Definition del_scene_prop (name : string) : R unit :=
  fun b => if decide (name ∈ scene_props b)
           then (inr tt, mkBpy (scene_props b ∖ {[ name ]}) (registered b))
           else (inl AttributeError, b).

(** [bpy.utils.register_class(cls)] *)
Definition register_class (cls : string) : R unit :=
  fun b => if decide (cls ∈ registered b)
           then (inl ValueError, b)
           else (inr tt, mkBpy (scene_props b) (registered b ++ [cls])).

(** [bpy.utils.unregister_class(cls)] *)
Definition unregister_class (cls : string) : R unit :=
  fun b => if decide (cls ∈ registered b)
           then (inr tt, mkBpy (scene_props b)
                           (List.filter (fun c => negb (String.eqb c cls))
                              (registered b)))
           else (inl RuntimeError, b).

(** [for cls in xs: f(cls)] *)
Fixpoint for_each (xs : list string) (f : string -> R unit) : R unit :=
  match xs with
  | [] => rret tt
  | cls :: rest => rbind (f cls) (fun _ => for_each rest f)
  end.

Definition init_properties : R unit := set_scene_prop "edge_clear_original".

Definition clear_properties : R unit :=
  try_pass (del_scene_prop "edge_clear_original").

Definition classes : list string :=
  [ "MESH_OT_convert_edge_attributes";
    "MESH_OT_quick_convert_sharp_to_bevel";
    "MESH_OT_quick_convert_sharp_to_seam";
    "MESH_OT_quick_convert_seam_to_sharp";
    "MESH_OT_quick_convert_seam_to_bevel";
    "VIEW3D_PT_edge_conversion_tools";
    "VIEW3D_PT_edge_conversion_object_tools" ].

Definition register : R unit :=
  rbind init_properties (fun _ => for_each classes register_class).

Definition unregister : R unit :=
  rbind (for_each (rev classes) unregister_class) (fun _ => clear_properties).

End Registration.

(** A small scene used for the concrete checks: three selected edges (sharp,
    seam, plain) and one unselected sharp edge, in a host of either kind. *)
Definition edge_A : BMEdge := mkBMEdge true false false ∅.
Definition edge_B : BMEdge := mkBMEdge true true true ∅.
Definition edge_C : BMEdge := mkBMEdge true true false ∅.
Definition edge_D : BMEdge := mkBMEdge false false false ∅.

Definition demo_mesh (api : bool) : BMesh :=
  mkBMesh [edge_A; edge_B; edge_C; edge_D] api ∅.

Definition demo_world (api : bool) : World :=
  mkWorld (Some (mkObject "MESH")) "OBJECT" (demo_mesh api) [] [].

Definition empty_world (api : bool) : World :=
  mkWorld (Some (mkObject "MESH")) "EDIT_MESH" (mkBMesh [edge_D] api ∅) [] [].

Definition curve_world : World :=
  mkWorld (Some (mkObject "CURVE")) "OBJECT" (demo_mesh true) [] [].

(** The writes one iteration of the loop makes through handle [i] when the
    edge there is [e]: the destination write, then the clearing write when
    the clear flag is on; none when the source predicate fails. *)
Definition edge_writes (ct : ConversionType) (co : bool)
  (bw : option BMLayerItem) (i : nat) (e : BMEdge) : list HostCall :=
  if source_predicate ct e then
    match ct with
    | SHARP_TO_BEVEL | SEAM_TO_BEVEL =>
        match bw with
        | Some l => [edge_setitem_call i l 1%float]
        | None => []
        end
    | SHARP_TO_SEAM => [edge_set_seam_call i true]
    | SEAM_TO_SHARP => [edge_set_smooth_call i false]
    end
    ++ (if co
        then match ct with
             | SHARP_TO_BEVEL | SHARP_TO_SEAM => [edge_set_smooth_call i true]
             | SEAM_TO_SHARP | SEAM_TO_BEVEL => [edge_set_seam_call i false]
             end
        else [])
  else [].

(** ... and the writes of a whole pass over the handles [sel] of mesh [bm]. *)
Definition pass_writes (ct : ConversionType) (co : bool)
  (bw : option BMLayerItem) (bm : BMesh) (sel : list nat) : list HostCall :=
  flat_map (fun i => from_option (edge_writes ct co bw i) [] (edges bm !! i)) sel.

(** A mesh in edit mode whose one selected edge is neither sharp nor a seam. *)
Definition plain_world : World :=
  mkWorld (Some (mkObject "MESH")) "EDIT_MESH"
    (mkBMesh [edge_C; edge_D] true ∅) [] [].

(** A host with some other add-on's class and scene property registered. *)
Definition other_bpy : Registration.Bpy :=
  Registration.mkBpy {[ "other_prop" ]} ["OTHER_OT_operator"].

(** * Proofs *)

(** ** Records are determined by their fields *)

Lemma BMesh_eq (bm bm' : BMesh) :
  edges bm = edges bm' ->
  has_bevel_weight_attr bm = has_bevel_weight_attr bm' ->
  edge_layers bm = edge_layers bm' ->
  bm = bm'.
Proof. destruct bm, bm'; simpl; intros; subst; reflexivity. Qed.

Lemma World_eq (w w' : World) :
  active_object w = active_object w' ->
  mode w = mode w' ->
  edit_mesh w = edit_mesh w' ->
  reports w = reports w' ->
  calls w = calls w' ->
  w = w'.
Proof. destruct w, w'; simpl; intros; subst; reflexivity. Qed.

(** ** Handles of the selected edges *)

Lemma elem_of_select_from (es : list BMEdge) (i j : nat) :
  j ∈ select_from i es <->
  i <= j /\ exists e, es !! (j - i) = Some e /\ select e = true.
Proof.
  revert i. induction es as [|e es IH]; intros i; simpl.
  - split; [intros H; inversion H | intros (_ & e & H & _); discriminate].
  - assert (Hrest : j ∈ select_from (S i) es <->
              i < j /\ exists e', es !! (j - S i) = Some e' /\ select e' = true).
    { rewrite IH. split; intros (? & ?); (split; [lia | assumption]). }
    destruct (select e) eqn:Hsel.
    + rewrite elem_of_cons, Hrest. split.
      * intros [-> | (Hlt & e' & Hl & Hs)].
        -- split; [lia|]. exists e. by rewrite Nat.sub_diag.
        -- split; [lia|]. exists e'.
           replace (j - i) with (S (j - S i)) by lia. done.
      * intros (Hle & e' & Hl & Hs).
        destruct (decide (j = i)) as [->|Hne]; [by left | right].
        split; [lia|]. exists e'.
        replace (j - i) with (S (j - S i)) in Hl by lia. done.
    + rewrite Hrest. split.
      * intros (Hlt & e' & Hl & Hs). split; [lia|]. exists e'.
        replace (j - i) with (S (j - S i)) by lia. done.
      * intros (Hle & e' & Hl & Hs).
        destruct (decide (j = i)) as [->|Hne].
        -- rewrite Nat.sub_diag in Hl. simpl in Hl. congruence.
        -- split; [lia|]. exists e'.
           replace (j - i) with (S (j - S i)) in Hl by lia. done.
Qed.

Lemma NoDup_select_from (es : list BMEdge) (i : nat) : NoDup (select_from i es).
Proof.
  revert i. induction es as [|e es IH]; intros i; simpl; [constructor|].
  destruct (select e); [|apply IH].
  constructor; [|apply IH].
  rewrite elem_of_select_from. lia.
Qed.

Lemma elem_of_selected_edges_of (bm : BMesh) (j : nat) :
  j ∈ selected_edges_of bm <->
  exists e, edges bm !! j = Some e /\ select e = true.
Proof.
  unfold selected_edges_of. rewrite elem_of_select_from, Nat.sub_0_r.
  split; [intros (_ & H); exact H | intros H; split; [lia | exact H]].
Qed.

Lemma select_from_ext (es es' : list BMEdge) (i : nat) :
  select <$> es = select <$> es' ->
  select_from i es = select_from i es'.
Proof.
  revert es' i. induction es as [|e es IH]; intros [|e' es'] i H;
    simpl in *; try discriminate; [reflexivity|].
  injection H as -> Htl. rewrite (IH es' (S i) Htl). reflexivity.
Qed.

(** ** Primitive runs *)

Lemma edge_read_run {A} (f : BMEdge -> A) (i : nat) (w : World) (e : BMEdge) :
  edges (edit_mesh w) !! i = Some e ->
  edge_read f i w = (inr (f e), w).
Proof. intros H. unfold edge_read, bind, get_world, ret. by rewrite H. Qed.

Lemma edge_write_run (f : BMEdge -> BMEdge) (i : nat) (w : World) (e : BMEdge) :
  edges (edit_mesh w) !! i = Some e ->
  edge_write f i w =
  (inr tt, set_edit_mesh (set_edges (<[i := f e]> (edges (edit_mesh w))) (edit_mesh w)) w).
Proof. intros H. unfold edge_write, bind, get_world, modify_bm. by rewrite H. Qed.

Lemma edge_step_refl (i : nat) (e : BMEdge) (w : World) :
  edges (edit_mesh w) !! i = Some e -> edge_step i e w w.
Proof.
  intros H. split; try reflexivity.
  - symmetry. by apply list_insert_id.
  - exists []. by rewrite app_nil_r.
Qed.

Lemma edge_step_write (f : BMEdge -> BMEdge) (c : HostCall) (i : nat)
  (e e' : BMEdge) (w0 w : World) :
  is_edge_write c = true ->
  edges (edit_mesh w0) !! i = Some e ->
  edge_step i e' w0 w ->
  exists w', (log c ;; edge_write f i) w = (inr tt, w') /\ edge_step i (f e') w0 w'.
Proof.
  intros Hc He [Ha Hm Hr Hat Hl Hes (t & Ht & Hw)].
  assert (Hi : i < length (edges (edit_mesh w0))) by (by eapply lookup_lt_Some).
  assert (He' : edges (edit_mesh (add_call c w)) !! i = Some e').
  { simpl. rewrite Hes. by apply list_lookup_insert_eq. }
  unfold bind at 1. unfold log.
  rewrite (edge_write_run f i _ e' He').
  eexists; split; [reflexivity|].
  split; simpl; try assumption.
  - rewrite Hes. apply list_insert_insert_eq.
  - exists (t ++ [c]). rewrite Ht, <- app_assoc. split; [reflexivity|].
    rewrite forallb_app, Hw. simpl. by rewrite Hc.
Qed.

Lemma bind_run {A B} (c : M A) (k : A -> M B) (w w' : World) (a : A) :
  c w = (inr a, w') -> bind c k w = k a w'.
Proof. intros H. unfold bind. by rewrite H. Qed.

(** ** One iteration of the general loop *)

Import MESH_OT_convert_edge_attributes.

Ltac step_write Hstep Hlook c f :=
  let w1 := fresh "w" in
  let Hrun := fresh "Hrun" in
  let Hs := fresh "Hstep" in
  destruct (edge_step_write f c _ _ _ _ _ eq_refl Hlook Hstep) as (w1 & Hrun & Hs);
  rewrite (bind_run _ _ _ _ _ Hrun); clear Hrun.

(** With the rule fixed, the general loop body is the body of the quick
    operator of that rule: the string tests on [conversion_type] compute. *)
Lemma body_SHARP_TO_BEVEL (co : bool) (l : BMLayerItem) :
  body SHARP_TO_BEVEL co (Some l) = MESH_OT_quick_convert_sharp_to_bevel.body co l.
Proof. reflexivity. Qed.

Lemma body_SHARP_TO_SEAM (co : bool) (bw : option BMLayerItem) :
  body SHARP_TO_SEAM co bw = MESH_OT_quick_convert_sharp_to_seam.body co.
Proof. reflexivity. Qed.

Lemma body_SEAM_TO_SHARP (co : bool) (bw : option BMLayerItem) :
  body SEAM_TO_SHARP co bw = MESH_OT_quick_convert_seam_to_sharp.body co.
Proof. reflexivity. Qed.

Lemma body_SEAM_TO_BEVEL (co : bool) (l : BMLayerItem) :
  body SEAM_TO_BEVEL co (Some l) = MESH_OT_quick_convert_seam_to_bevel.body co l.
Proof. reflexivity. Qed.

Lemma body_run (ct : ConversionType) (co : bool) (bw : option BMLayerItem)
  (i c : nat) (w : World) (e : BMEdge) :
  edges (edit_mesh w) !! i = Some e ->
  (touches_bevel ct = true -> is_Some bw) ->
  exists w',
    body ct co bw i c w = (inr (if source_predicate ct e then c + 1 else c), w')
    /\ edge_step i (convert_edge ct co bw e) w w'.
Proof.
  intros He Hbw.
  pose proof (edge_step_refl i e w He) as H0.
  unfold convert_edge.
  destruct ct; simpl in Hbw; unfold source_predicate, isSharp, isSeam.
  - destruct (Hbw eq_refl) as [l ->]. rewrite body_SHARP_TO_BEVEL.
    unfold MESH_OT_quick_convert_sharp_to_bevel.body, edge_smooth.
    rewrite (bind_run _ _ _ _ _ (edge_read_run smooth i w e He)).
    destruct (smooth e); simpl; [eauto|].
    unfold edge_setitem.
    step_write H0 He (edge_setitem_call i l 1%float) (with_item l 1%float).
    destruct co; [|eauto].
    unfold edge_set_smooth.
    step_write Hstep He (edge_set_smooth_call i true) (with_smooth true).
    eauto.
  - rewrite body_SHARP_TO_SEAM.
    unfold MESH_OT_quick_convert_sharp_to_seam.body, edge_smooth.
    rewrite (bind_run _ _ _ _ _ (edge_read_run smooth i w e He)).
    destruct (smooth e); simpl; [eauto|].
    unfold edge_set_seam.
    step_write H0 He (edge_set_seam_call i true) (with_seam true).
    destruct co; [|eauto].
    unfold edge_set_smooth.
    step_write Hstep He (edge_set_smooth_call i true) (with_smooth true).
    eauto.
  - rewrite body_SEAM_TO_SHARP.
    unfold MESH_OT_quick_convert_seam_to_sharp.body, edge_seam.
    rewrite (bind_run _ _ _ _ _ (edge_read_run seam i w e He)).
    destruct (seam e); simpl; [|eauto].
    unfold edge_set_smooth.
    step_write H0 He (edge_set_smooth_call i false) (with_smooth false).
    destruct co; [|eauto].
    unfold edge_set_seam.
    step_write Hstep He (edge_set_seam_call i false) (with_seam false).
    eauto.
  - destruct (Hbw eq_refl) as [l ->]. rewrite body_SEAM_TO_BEVEL.
    unfold MESH_OT_quick_convert_seam_to_bevel.body, edge_seam.
    rewrite (bind_run _ _ _ _ _ (edge_read_run seam i w e He)).
    destruct (seam e); simpl; [|eauto].
    unfold edge_setitem.
    step_write H0 He (edge_setitem_call i l 1%float) (with_item l 1%float).
    destruct co; [|eauto].
    unfold edge_set_seam.
    step_write Hstep He (edge_set_seam_call i false) (with_seam false).
    eauto.
Qed.

(** ** The whole loop *)

Lemma count_source_cons (ct : ConversionType) (bm : BMesh) (i : nat)
  (rest : list nat) (e : BMEdge) :
  edges bm !! i = Some e ->
  count_source ct bm (i :: rest) =
  (if source_predicate ct e then 1 else 0) + count_source ct bm rest.
Proof.
  intros He. unfold count_source. simpl.
  unfold satisfies_source at 1. rewrite He. simpl.
  by destruct (source_predicate ct e).
Qed.

Lemma count_source_ext (ct : ConversionType) (bm bm' : BMesh) (sel : list nat) :
  (forall j, j ∈ sel -> edges bm' !! j = edges bm !! j) ->
  count_source ct bm' sel = count_source ct bm sel.
Proof.
  intros H. unfold count_source. f_equal.
  apply List.filter_ext_in. intros j Hj.
  unfold satisfies_source. rewrite H; [reflexivity|]. by apply list_elem_of_In.
Qed.

Lemma for_edges_run (ct : ConversionType) (co : bool) (bw : option BMLayerItem)
  (sel : list nat) :
  (touches_bevel ct = true -> is_Some bw) ->
  forall (c : nat) (w : World),
    NoDup sel ->
    (forall i, i ∈ sel -> is_Some (edges (edit_mesh w) !! i)) ->
    exists w',
      for_edges sel (body ct co bw) c w
      = (inr (c + count_source ct (edit_mesh w) sel), w')
      /\ loop_post ct co bw sel w w'.
Proof.
  intros Hbw. induction sel as [|i rest IH]; intros c w Hnd Hvalid.
  - exists w. split.
    + simpl. unfold ret, count_source. simpl. by rewrite Nat.add_0_r.
    + split; try reflexivity.
      exists []. by rewrite app_nil_r.
  - apply NoDup_cons in Hnd as [Hi Hnd].
    destruct (Hvalid i) as [e He]; [by left|].
    destruct (body_run ct co bw i c w e He Hbw) as (w1 & Hrun & Hst).
    destruct Hst as [Ha Hm Hr Hat Hl Hes (t1 & Ht1 & Hw1)].
    assert (Hother : forall j, j ≠ i ->
              edges (edit_mesh w1) !! j = edges (edit_mesh w) !! j).
    { intros j Hne. rewrite Hes. by apply list_lookup_insert_ne. }
    assert (Hrest : forall j, j ∈ rest ->
              edges (edit_mesh w1) !! j = edges (edit_mesh w) !! j).
    { intros j Hj. apply Hother. intros Heq. subst j. contradiction. }
    destruct (IH (if source_predicate ct e then c + 1 else c) w1 Hnd)
      as (w' & Hloop & Hpost).
    { intros j Hj. rewrite Hrest by assumption. apply Hvalid. by right. }
    destruct Hpost as [Ha' Hm' Hr' Hat' Hl' Hes' (t2 & Ht2 & Hw2)].
    exists w'. split.
    + simpl. rewrite (bind_run _ _ _ _ _ Hrun), Hloop.
      rewrite (count_source_ext ct _ _ rest Hrest).
      rewrite (count_source_cons ct _ i rest e He).
      f_equal. f_equal. destruct (source_predicate ct e); lia.
    + split; try congruence.
      * intros j. rewrite Hes'.
        destruct (decide (j = i)) as [->|Hne].
        -- rewrite decide_False by assumption.
           rewrite decide_True by (by left).
           rewrite Hes, He. simpl. apply list_lookup_insert_eq.
           by eapply lookup_lt_Some.
        -- rewrite (Hother j Hne).
           destruct (decide (j ∈ rest)) as [Hin|Hnin].
           ++ rewrite decide_True by (by right). reflexivity.
           ++ rewrite decide_False; [reflexivity|].
              intros [?|?]%elem_of_cons; contradiction.
      * exists (t1 ++ t2). rewrite Ht2, Ht1, <- app_assoc. split; [reflexivity|].
        by rewrite forallb_app, Hw1, Hw2.
Qed.

(** ** Ensuring the bevel-weight layer *)

Lemma add_layer_present (l : BMLayerItem) (bm : BMesh) :
  l ∈ edge_layers bm -> add_layer l bm = bm.
Proof.
  intros H. apply BMesh_eq; simpl; try reflexivity.
  by apply subseteq_union_1_L, singleton_subseteq_l.
Qed.

Lemma add_layer_idem (l : BMLayerItem) (bm : BMesh) :
  add_layer l (add_layer l bm) = add_layer l bm.
Proof. apply add_layer_present. simpl. apply elem_of_union_l, elem_of_singleton_2. reflexivity. Qed.

Lemma ensure_bevel_layer_run (w : World) :
  ensure_bevel_layer w = (inr (bevel_layer_of (edit_mesh w)), ensured_world w).
Proof.
  unfold ensure_bevel_layer, try_except, layers_bevel_weight_verify,
    ensured_world, bevel_layer_of, ensure_calls.
  unfold bind at 1. unfold get_world at 1.
  destruct (has_bevel_weight_attr (edit_mesh w)) eqn:Hattr.
  - reflexivity.
  - unfold raise at 1. rewrite decide_True by reflexivity.
    unfold layers_float_get, layers_float_new, bind, log, get_world, modify_bm, ret.
    simpl.
    destruct (decide (LayerFloat "bevel_weight_edge" ∈ edge_layers (edit_mesh w)))
      as [Hin|Hnin]; simpl.
    + rewrite (add_layer_present _ _ Hin). reflexivity.
    + unfold add_call; simpl. by rewrite <- app_assoc.
Qed.

(** ** The prologue shared by the five operators *)

Lemma str_in_BEVEL (ct : ConversionType) :
  str_in "BEVEL" (identifier ct) = touches_bevel ct.
Proof. destruct ct; reflexivity. Qed.

Lemma enter_edit_mesh (w : World) : edit_mesh (enter_edit w) = edit_mesh w.
Proof.
  unfold enter_edit.
  by destruct (negb (String.eqb (mode w) "EDIT_MESH")).
Qed.

Lemma enter_edit_run (w : World) :
  (if negb (String.eqb (mode w) "EDIT_MESH") then mode_set_EDIT else ret tt) w
  = (inr tt,
     if negb (String.eqb (mode w) "EDIT_MESH")
     then set_mode "EDIT_MESH" (add_call (mode_set_call "EDIT") w)
     else w).
Proof. by destruct (negb (String.eqb (mode w) "EDIT_MESH")). Qed.

Lemma prologue_world_enter (ct : ConversionType) (w : World) :
  prologue_world ct w =
  if touches_bevel ct then ensured_world (enter_edit w) else enter_edit w.
Proof.
  unfold prologue_world, prologue_calls, ensured_mesh, ensured_world, enter_edit.
  destruct (negb (String.eqb (mode w) "EDIT_MESH")) eqn:Hmode;
    destruct (touches_bevel ct);
    apply World_eq; cbn [active_object mode edit_mesh reports calls
                         add_call set_mode];
    rewrite <- ?app_assoc, ?app_nil_r; try reflexivity;
    apply negb_false_iff, String.eqb_eq in Hmode; by rewrite Hmode.
Qed.

Lemma execute_invalid (ct : ConversionType) (co : bool) (w : World) :
  not_a_mesh (active_object w) = true ->
  execute ct co w = (inr CANCELLED, add_report (WARNING, msg_select_mesh) w).
Proof.
  intros H. unfold execute. unfold bind at 1. unfold get_world at 1.
  rewrite H. reflexivity.
Qed.

Lemma execute_prologue (ct : ConversionType) (co : bool) (w : World) :
  valid_target w ->
  execute ct co w
  = main_pass msg_done ct co (bw_layer_for ct (edit_mesh w)) (prologue_world ct w).
Proof.
  intros H. unfold valid_target in H.
  rewrite prologue_world_enter. unfold bw_layer_for.
  unfold execute. unfold bind at 1. unfold get_world at 1. rewrite H.
  rewrite str_in_BEVEL.
  unfold bind at 1. rewrite enter_edit_run.
  unfold bind at 1. unfold from_edit_mesh at 1. unfold log at 1.
  fold (enter_edit w). fold (main_pass msg_done ct co).
  unfold bind at 1.
  destruct (touches_bevel ct).
  - unfold bind at 1. rewrite ensure_bevel_layer_run, enter_edit_mesh. reflexivity.
  - reflexivity.
Qed.

(** ** Runs of the general operator *)

Lemma edges_ensured_mesh (ct : ConversionType) (bm : BMesh) :
  edges (ensured_mesh ct bm) = edges bm.
Proof. unfold ensured_mesh. by destruct (touches_bevel ct). Qed.

Lemma attr_ensured_mesh (ct : ConversionType) (bm : BMesh) :
  has_bevel_weight_attr (ensured_mesh ct bm) = has_bevel_weight_attr bm.
Proof. unfold ensured_mesh. by destruct (touches_bevel ct). Qed.

Lemma selected_ensured_mesh (ct : ConversionType) (bm : BMesh) :
  selected_edges_of (ensured_mesh ct bm) = selected_edges_of bm.
Proof. unfold selected_edges_of. by rewrite edges_ensured_mesh. Qed.

Lemma bw_layer_for_Some (ct : ConversionType) (bm : BMesh) :
  touches_bevel ct = true -> is_Some (bw_layer_for ct bm).
Proof. intros H. unfold bw_layer_for. rewrite H. eauto. Qed.

(** Visiting exactly the selected handles converts exactly the selected
    edges. *)
Lemma convert_selected_lookup (ct : ConversionType) (co : bool)
  (bw : option BMLayerItem) (bm : BMesh) (es' : list BMEdge) :
  (forall j, es' !! j =
             if decide (j ∈ selected_edges_of bm)
             then convert_edge ct co bw <$> edges bm !! j
             else edges bm !! j) ->
  es' = convert_selected ct co bw (edges bm).
Proof.
  intros H. apply list_eq. intros j. rewrite H.
  unfold convert_selected. rewrite list_lookup_fmap.
  destruct (edges bm !! j) as [e|] eqn:He; simpl.
  - destruct (select e) eqn:Hs.
    + rewrite decide_True; [reflexivity|].
      apply elem_of_selected_edges_of. eauto.
    + rewrite decide_False; [reflexivity|].
      intros (e' & He' & Hs')%elem_of_selected_edges_of. congruence.
  - by destruct (decide _).
Qed.

Lemma main_pass_cancelled (msg : nat -> string) (ct : ConversionType)
  (co : bool) (bw : option BMLayerItem) (w1 : World) :
  selected_edges_of (edit_mesh w1) = [] ->
  main_pass msg ct co bw w1
  = (inr CANCELLED, add_report (WARNING, msg_no_edges) (add_call edges_iter_call w1)).
Proof.
  intros H. unfold main_pass, collect_selected_edges, bind, log, get_world, ret.
  simpl. rewrite H. reflexivity.
Qed.

Lemma main_pass_finished (ct : ConversionType) (co : bool)
  (bw : option BMLayerItem) (w1 : World) :
  selected_edges_of (edit_mesh w1) ≠ [] ->
  (touches_bevel ct = true -> is_Some bw) ->
  exists w3,
    (forall msg : nat -> string,
       main_pass msg ct co bw w1
       = (inr FINISHED,
          add_report
            (INFO, msg (count_source ct (edit_mesh w1)
                          (selected_edges_of (edit_mesh w1))))
            (add_call update_edit_mesh_call w3)))
    /\ loop_post ct co bw (selected_edges_of (edit_mesh w1))
         (add_call edges_iter_call w1) w3.
Proof.
  intros Hne Hbw.
  destruct (for_edges_run ct co bw (selected_edges_of (edit_mesh w1)) Hbw 0
              (add_call edges_iter_call w1)) as (w3 & Hloop & Hpost).
  { apply NoDup_select_from. }
  { intros i (e & He & _)%elem_of_selected_edges_of. simpl. eauto. }
  exists w3. split; [|exact Hpost].
  intros msg. unfold main_pass, collect_selected_edges.
  unfold bind at 1. unfold bind at 1. unfold log at 1.
  unfold bind at 1. unfold get_world at 1. unfold ret at 1.
  cbn [edit_mesh add_call].
  destruct (selected_edges_of (edit_mesh w1)) as [|i sel] eqn:Hsel; [done|].
  rewrite (bind_run _ _ _ _ _ Hloop). reflexivity.
Qed.

Lemma main_pass_after_prologue_cancelled (msg : nat -> string)
  (ct : ConversionType) (co : bool) (w : World) :
  selected_edges_of (edit_mesh w) = [] ->
  main_pass msg ct co (bw_layer_for ct (edit_mesh w)) (prologue_world ct w)
  = (inr CANCELLED, cancelled_world ct w).
Proof.
  intros Hsel. apply main_pass_cancelled. simpl. by rewrite selected_ensured_mesh.
Qed.

Lemma main_pass_after_prologue_finished (msg : nat -> string)
  (ct : ConversionType) (co : bool) (w : World) :
  selected_edges_of (edit_mesh w) ≠ [] ->
  exists w',
    main_pass msg ct co (bw_layer_for ct (edit_mesh w)) (prologue_world ct w)
    = (inr FINISHED, w')
    /\ finished_post msg ct co w w'.
Proof.
  intros Hsel.
  assert (Hs1 : selected_edges_of (edit_mesh (prologue_world ct w))
                = selected_edges_of (edit_mesh w)).
  { simpl. apply selected_ensured_mesh. }
  destruct (main_pass_finished ct co (bw_layer_for ct (edit_mesh w))
              (prologue_world ct w)) as (w3 & Hrun & Hpost).
  { by rewrite Hs1. }
  { apply bw_layer_for_Some. }
  rewrite (Hrun msg). eexists; split; [reflexivity|].
  destruct Hpost as [Ha Hm Hr Hat Hl Hes (t & Ht & Hw)].
  rewrite Hs1 in *. simpl in Ha, Hm, Hr, Hat, Hl, Hes, Ht.
  rewrite edges_ensured_mesh in Hes.
  split; simpl.
  - exact Ha.
  - exact Hm.
  - apply BMesh_eq; simpl.
    + by apply convert_selected_lookup.
    + exact Hat.
    + exact Hl.
  - rewrite Hr.
    rewrite (count_source_ext ct (edit_mesh w) (ensured_mesh ct (edit_mesh w)));
      [reflexivity|].
    intros j _. by rewrite edges_ensured_mesh.
  - exists t. split; [|exact Hw].
    rewrite Ht. by rewrite <- !app_assoc.
Qed.

Lemma execute_cancelled (ct : ConversionType) (co : bool) (w : World) :
  valid_target w ->
  selected_edges_of (edit_mesh w) = [] ->
  execute ct co w = (inr CANCELLED, cancelled_world ct w).
Proof.
  intros Hv Hsel. rewrite (execute_prologue ct co w Hv).
  by apply main_pass_after_prologue_cancelled.
Qed.

Lemma execute_finished (ct : ConversionType) (co : bool) (w : World) :
  valid_target w ->
  selected_edges_of (edit_mesh w) ≠ [] ->
  exists w', execute ct co w = (inr FINISHED, w')
             /\ finished_post msg_done ct co w w'.
Proof.
  intros Hv Hsel. rewrite (execute_prologue ct co w Hv).
  by apply main_pass_after_prologue_finished.
Qed.

(** ** Runs of the quick operators *)

Lemma quick_execute_invalid (ct : ConversionType) (co : bool) (w : World) :
  not_a_mesh (active_object w) = true ->
  quick_execute ct co w = (inr CANCELLED, add_report (WARNING, msg_select_mesh) w).
Proof.
  intros H.
  destruct ct; simpl;
    [ unfold MESH_OT_quick_convert_sharp_to_bevel.execute
    | unfold MESH_OT_quick_convert_sharp_to_seam.execute
    | unfold MESH_OT_quick_convert_seam_to_sharp.execute
    | unfold MESH_OT_quick_convert_seam_to_bevel.execute ];
    unfold bind at 1; unfold get_world at 1; rewrite H; reflexivity.
Qed.

Lemma quick_execute_prologue (ct : ConversionType) (co : bool) (w : World) :
  valid_target w ->
  quick_execute ct co w
  = main_pass msg_quick_done ct co (bw_layer_for ct (edit_mesh w))
      (prologue_world ct w).
Proof.
  intros H. unfold valid_target in H.
  rewrite prologue_world_enter. unfold bw_layer_for.
  destruct ct; simpl;
    [ unfold MESH_OT_quick_convert_sharp_to_bevel.execute
    | unfold MESH_OT_quick_convert_sharp_to_seam.execute
    | unfold MESH_OT_quick_convert_seam_to_sharp.execute
    | unfold MESH_OT_quick_convert_seam_to_bevel.execute ];
    unfold bind at 1; unfold get_world at 1; rewrite H;
    unfold bind at 1; rewrite enter_edit_run;
    unfold bind at 1; unfold from_edit_mesh at 1; unfold log at 1;
    fold (enter_edit w).
  - unfold bind at 1. rewrite ensure_bevel_layer_run, enter_edit_mesh. reflexivity.
  - reflexivity.
  - reflexivity.
  - unfold bind at 1. rewrite ensure_bevel_layer_run, enter_edit_mesh. reflexivity.
Qed.

Lemma quick_execute_cancelled (ct : ConversionType) (co : bool) (w : World) :
  valid_target w ->
  selected_edges_of (edit_mesh w) = [] ->
  quick_execute ct co w = (inr CANCELLED, cancelled_world ct w).
Proof.
  intros Hv Hsel. rewrite (quick_execute_prologue ct co w Hv).
  by apply main_pass_after_prologue_cancelled.
Qed.

Lemma quick_execute_finished (ct : ConversionType) (co : bool) (w : World) :
  valid_target w ->
  selected_edges_of (edit_mesh w) ≠ [] ->
  exists w', quick_execute ct co w = (inr FINISHED, w')
             /\ finished_post msg_quick_done ct co w w'.
Proof.
  intros Hv Hsel. rewrite (quick_execute_prologue ct co w Hv).
  by apply main_pass_after_prologue_finished.
Qed.

(** ** Consequences used by several properties *)

Lemma selected_nonempty (bm : BMesh) (i : nat) (e : BMEdge) :
  edges bm !! i = Some e -> select e = true -> selected_edges_of bm ≠ [].
Proof.
  intros He Hs Hnil.
  assert (Hin : i ∈ selected_edges_of bm) by (apply elem_of_selected_edges_of; eauto).
  rewrite Hnil in Hin. inversion Hin.
Qed.

Lemma converted_mesh_lookup (ct : ConversionType) (co : bool) (bm : BMesh)
  (i : nat) (e : BMEdge) :
  edges bm !! i = Some e ->
  edges (converted_mesh ct co bm) !! i
  = Some (if select e then convert_edge ct co (bw_layer_for ct bm) e else e).
Proof.
  intros He. unfold converted_mesh, convert_selected. simpl.
  by rewrite list_lookup_fmap, He.
Qed.

Lemma attr_converted_mesh (ct : ConversionType) (co : bool) (bm : BMesh) :
  has_bevel_weight_attr (converted_mesh ct co bm) = has_bevel_weight_attr bm.
Proof. unfold converted_mesh. simpl. apply attr_ensured_mesh. Qed.

Lemma select_convert_edge (ct : ConversionType) (co : bool)
  (bw : option BMLayerItem) (e : BMEdge) :
  select (convert_edge ct co bw e) = select e.
Proof.
  unfold convert_edge.
  destruct (source_predicate ct e); [|reflexivity].
  destruct ct, co, bw; reflexivity.
Qed.

Lemma selected_converted_mesh (ct : ConversionType) (co : bool) (bm : BMesh) :
  selected_edges_of (converted_mesh ct co bm) = selected_edges_of bm.
Proof.
  unfold selected_edges_of, converted_mesh, convert_selected. simpl.
  apply select_from_ext. rewrite <- list_fmap_compose.
  apply list_fmap_ext. intros _ e _. simpl.
  destruct (select e) eqn:Hs; [|exact Hs].
  by rewrite select_convert_edge.
Qed.

Lemma getitem_with_item (l : BMLayerItem) (v : float) (e : BMEdge) :
  getitem (with_item l v e) l = v.
Proof. unfold getitem, with_item. simpl. by rewrite lookup_insert_eq. Qed.

(** * The properties *)

(** The scenario of the specification: three selected edges, A sharp, B a
    seam, C neither.  SharpToBevel modifies one edge: A gets weight 1.0 and
    loses its sharp flag, B and C stay as they were. *)
Example scenario_three_selected_edges :
  let r := execute SHARP_TO_BEVEL true (demo_world true) in
  r.1 = inr FINISHED
  /\ reports r.2 = [(INFO, msg_done 1)]
  /\ edges (edit_mesh r.2)
     = [with_smooth true (with_item LayerBevelWeight 1%float edge_A);
        edge_B; edge_C; edge_D].
Proof. repeat split. Qed.

Example scenario_quick_seam_to_bevel_keeps_seam :
  let r := MESH_OT_quick_convert_seam_to_bevel.execute false (demo_world false) in
  r.1 = inr FINISHED
  /\ reports r.2 = [(INFO, msg_quick_done 1)]
  /\ edges (edit_mesh r.2)
     = [edge_A; with_item (LayerFloat "bevel_weight_edge") 1%float edge_B;
        edge_C; edge_D].
Proof. repeat split. Qed.

(** C4. When no object is active, or the active object is not a mesh, the
    general operator and each quick operator report the "select a mesh
    object" warning and return CANCELLED; the world they leave differs from
    the one they found by that report only, so the mesh is not mutated and no
    host call is made. *)
Theorem C4_invalid_target_cancelled
  (ct : ConversionType) (co : bool) (w : World) :
  not_a_mesh (active_object w) = true ->
  (execute ct co w = (inr CANCELLED, add_report (WARNING, msg_select_mesh) w)
   /\ quick_execute ct co w = (inr CANCELLED, add_report (WARNING, msg_select_mesh) w))
  /\ edit_mesh (add_report (WARNING, msg_select_mesh) w) = edit_mesh w
  /\ calls (add_report (WARNING, msg_select_mesh) w) = calls w
  /\ reports (add_report (WARNING, msg_select_mesh) w)
     = reports w ++ [(WARNING, msg_select_mesh)].
Proof.
  intros H. repeat split.
  - by apply execute_invalid.
  - by apply quick_execute_invalid.
Qed.

Lemma C4_invalid_target_cancelled_witness :
  not_a_mesh (active_object curve_world) = true
  /\ execute SEAM_TO_BEVEL true curve_world
     = (inr CANCELLED, add_report (WARNING, msg_select_mesh) curve_world).
Proof.
  split; [reflexivity|].
  apply (C4_invalid_target_cancelled SEAM_TO_BEVEL true curve_world). reflexivity.
Defined.

(** C3, as stated, fails: with a bevel rule the layer is ensured before the
    selection is looked at, so a cancelled run on an empty selection can
    leave a freshly allocated bevel-weight layer behind.  Here the mesh has
    no layer and no selected edge, the operator cancels, and the set of edge
    layers has changed. *)
Lemma C3_counterexample :
  valid_target (empty_world true)
  /\ selected_edges_of (edit_mesh (empty_world true)) = []
  /\ (execute SHARP_TO_BEVEL true (empty_world true)).1 = inr CANCELLED
  /\ edge_layers (edit_mesh (empty_world true)) = ∅
  /\ LayerBevelWeight
     ∈ edge_layers (edit_mesh (execute SHARP_TO_BEVEL true (empty_world true)).2)
  /\ edit_mesh (execute SHARP_TO_BEVEL true (empty_world true)).2
     ≠ edit_mesh (empty_world true).
Proof.
  assert (Hin : LayerBevelWeight
     ∈ edge_layers (edit_mesh (execute SHARP_TO_BEVEL true (empty_world true)).2)).
  { refine (bool_decide_unpack _ _). vm_compute. exact I. }
  repeat split; try reflexivity; try exact Hin.
  intros Heq. rewrite Heq in Hin. simpl in Hin.
  by apply not_elem_of_empty in Hin.
Qed.

(** C3, amended.  On a valid mesh with no selected edge, the general operator
    and each quick operator report the "no edges selected" warning and return
    CANCELLED; no edge attribute is written (the edge sequence is unchanged
    and no edge write is logged).  The attribute storage is unchanged when
    the rule does not touch bevel weight, or when the bevel-weight layer was
    already there; otherwise the one change is that this layer has been
    added. *)
Theorem C3_empty_selection_cancelled
  (ct : ConversionType) (co : bool) (w : World) :
  valid_target w ->
  selected_edges_of (edit_mesh w) = [] ->
  (execute ct co w = (inr CANCELLED, cancelled_world ct w)
   /\ quick_execute ct co w = (inr CANCELLED, cancelled_world ct w))
  /\ reports (cancelled_world ct w) = reports w ++ [(WARNING, msg_no_edges)]
  /\ edges (edit_mesh (cancelled_world ct w)) = edges (edit_mesh w)
  /\ (exists t, calls (cancelled_world ct w) = calls w ++ t
                /\ forallb (fun c => negb (is_edge_write c)) t = true)
  /\ (touches_bevel ct = false -> edit_mesh (cancelled_world ct w) = edit_mesh w)
  /\ (bevel_layer_of (edit_mesh w) ∈ edge_layers (edit_mesh w) ->
      edit_mesh (cancelled_world ct w) = edit_mesh w)
  /\ (touches_bevel ct = true ->
      edit_mesh (cancelled_world ct w)
      = add_layer (bevel_layer_of (edit_mesh w)) (edit_mesh w)).
Proof.
  intros Hv Hsel. split; [split|].
  - by apply execute_cancelled.
  - by apply quick_execute_cancelled.
  - unfold cancelled_world, prologue_world. simpl.
    repeat split.
    + apply edges_ensured_mesh.
    + exists (prologue_calls ct w ++ [edges_iter_call]).
      rewrite <- app_assoc. split; [reflexivity|].
      unfold prologue_calls, ensure_calls.
      destruct (negb (String.eqb (mode w) "EDIT_MESH")), (touches_bevel ct);
        try reflexivity;
        destruct (has_bevel_weight_attr (edit_mesh w)); try reflexivity;
        by destruct (decide _).
    + intros Hb. unfold ensured_mesh. by rewrite Hb.
    + intros Hin. unfold ensured_mesh.
      destruct (touches_bevel ct); [|reflexivity].
      by apply add_layer_present.
    + intros Hb. unfold ensured_mesh. by rewrite Hb.
Qed.

Lemma C3_empty_selection_cancelled_witness :
  execute SEAM_TO_BEVEL false (empty_world false)
  = (inr CANCELLED, cancelled_world SEAM_TO_BEVEL (empty_world false)).
Proof.
  apply (C3_empty_selection_cancelled SEAM_TO_BEVEL false (empty_world false));
    reflexivity.
Defined.

(** C1. An edge that is selected and sharp when SharpToBevel runs with
    clearOriginal = true has bevel weight 1.0 and is no longer sharp when the
    operator returns, for the general operator and for the quick one. *)
Theorem C1_sharp_to_bevel_clear
  (w : World) (i : nat) (e : BMEdge) :
  valid_target w ->
  edges (edit_mesh w) !! i = Some e ->
  select e = true ->
  isSharp e = true ->
  (exists w' e',
      execute SHARP_TO_BEVEL true w = (inr FINISHED, w')
      /\ edges (edit_mesh w') !! i = Some e'
      /\ bevelWeight (edit_mesh w') e' = 1%float
      /\ isSharp e' = false /\ smooth e' = true)
  /\ (exists w' e',
      MESH_OT_quick_convert_sharp_to_bevel.execute true w = (inr FINISHED, w')
      /\ edges (edit_mesh w') !! i = Some e'
      /\ bevelWeight (edit_mesh w') e' = 1%float
      /\ isSharp e' = false /\ smooth e' = true).
Proof.
  intros Hv He Hs Hsharp.
  pose proof (selected_nonempty _ _ _ He Hs) as Hne.
  assert (Hpost : forall msg w',
            finished_post msg SHARP_TO_BEVEL true w w' ->
            exists e', edges (edit_mesh w') !! i = Some e'
                       /\ bevelWeight (edit_mesh w') e' = 1%float
                       /\ isSharp e' = false /\ smooth e' = true).
  { intros msg w' [_ _ Hmesh _ _].
    eexists. rewrite Hmesh. split; [by apply converted_mesh_lookup|].
    rewrite Hs. unfold convert_edge, source_predicate. rewrite Hsharp.
    unfold bevelWeight, bevel_layer_of. rewrite attr_converted_mesh.
    simpl. split; [|done].
    apply (getitem_with_item _ _ (with_smooth true e)). }
  split.
  - destruct (execute_finished SHARP_TO_BEVEL true w Hv Hne) as (w' & Hrun & Hp).
    destruct (Hpost _ _ Hp) as (e' & ?). eauto.
  - destruct (quick_execute_finished SHARP_TO_BEVEL true w Hv Hne) as (w' & Hrun & Hp).
    destruct (Hpost _ _ Hp) as (e' & ?). eauto.
Qed.

Lemma C1_sharp_to_bevel_clear_witness :
  exists w' e',
    execute SHARP_TO_BEVEL true (demo_world false) = (inr FINISHED, w')
    /\ edges (edit_mesh w') !! 0 = Some e'
    /\ bevelWeight (edit_mesh w') e' = 1%float
    /\ isSharp e' = false /\ smooth e' = true.
Proof.
  exact (proj1 (C1_sharp_to_bevel_clear (demo_world false) 0 edge_A
                  eq_refl eq_refl eq_refl eq_refl)).
Defined.

(** C2. On a valid mesh with a non-empty selection, whatever the rule and the
    clear flag, the loop returns, and the final INFO report carries, the
    number of selected edges that satisfy the rule's source predicate in the
    mesh as it was when the operator was called. *)
Theorem C2_modified_count
  (ct : ConversionType) (co : bool) (w : World) :
  valid_target w ->
  selected_edges_of (edit_mesh w) ≠ [] ->
  let n := count_source ct (edit_mesh w) (selected_edges_of (edit_mesh w)) in
  (exists w3,
      for_edges (selected_edges_of (edit_mesh w))
        (body ct co (bw_layer_for ct (edit_mesh w))) 0
        (add_call edges_iter_call (prologue_world ct w))
      = (inr n, w3))
  /\ (exists w', execute ct co w = (inr FINISHED, w')
                 /\ reports w' = reports w ++ [(INFO, msg_done n)])
  /\ (exists w', quick_execute ct co w = (inr FINISHED, w')
                 /\ reports w' = reports w ++ [(INFO, msg_quick_done n)]).
Proof.
  intros Hv Hne n. repeat split.
  - destruct (for_edges_run ct co (bw_layer_for ct (edit_mesh w))
                (selected_edges_of (edit_mesh w)) (bw_layer_for_Some ct _) 0
                (add_call edges_iter_call (prologue_world ct w)))
      as (w3 & Hloop & _).
    + apply NoDup_select_from.
    + intros i (e & He & _)%elem_of_selected_edges_of. simpl.
      rewrite edges_ensured_mesh. eauto.
    + exists w3. rewrite Hloop. simpl. f_equal. f_equal.
      apply count_source_ext. intros j _. simpl. by rewrite edges_ensured_mesh.
  - destruct (execute_finished ct co w Hv Hne) as (w' & Hrun & Hp).
    exists w'. split; [exact Hrun | apply Hp].
  - destruct (quick_execute_finished ct co w Hv Hne) as (w' & Hrun & Hp).
    exists w'. split; [exact Hrun | apply Hp].
Qed.

Lemma C2_modified_count_witness :
  exists w', execute SEAM_TO_SHARP false (demo_world true) = (inr FINISHED, w')
             /\ reports w' = reports (demo_world true) ++ [(INFO, msg_done 1)].
Proof.
  apply (C2_modified_count SEAM_TO_SHARP false (demo_world true));
    [reflexivity | discriminate].
Defined.

(** C5. A selected edge that is not sharp when a sharp-sourced rule runs
    (SharpToBevel or SharpToSeam, general or quick operator, either value of
    the clear flag) is the same edge afterwards: selection, sharp and seam
    flags and every layer value, the bevel weight among them. *)
Theorem C5_non_sharp_edge_untouched
  (ct : ConversionType) (co : bool) (w : World) (i : nat) (e : BMEdge) :
  sharp_sourced ct = true ->
  edges (edit_mesh w) !! i = Some e ->
  select e = true ->
  isSharp e = false ->
  edges (edit_mesh (execute ct co w).2) !! i = Some e
  /\ edges (edit_mesh (quick_execute ct co w).2) !! i = Some e.
Proof.
  intros Hct He Hs Hsharp.
  pose proof (selected_nonempty _ _ _ He Hs) as Hne.
  assert (Hpost : forall msg w', finished_post msg ct co w w' ->
            edges (edit_mesh w') !! i = Some e).
  { intros msg w' [_ _ Hmesh _ _].
    rewrite Hmesh, (converted_mesh_lookup ct co _ i e He), Hs.
    unfold convert_edge.
    destruct ct; try discriminate; unfold source_predicate; by rewrite Hsharp. }
  destruct (not_a_mesh (active_object w)) eqn:Hobj.
  - rewrite (execute_invalid ct co w Hobj), (quick_execute_invalid ct co w Hobj).
    split; exact He.
  - destruct (execute_finished ct co w Hobj Hne) as (w' & Hrun & Hp).
    destruct (quick_execute_finished ct co w Hobj Hne) as (w'' & Hrun' & Hp').
    rewrite Hrun, Hrun'. split; eapply Hpost; eassumption.
Qed.

Lemma C5_non_sharp_edge_untouched_witness :
  edges (edit_mesh (execute SHARP_TO_SEAM true (demo_world true)).2) !! 2
  = Some edge_C.
Proof.
  exact (proj1 (C5_non_sharp_edge_untouched SHARP_TO_SEAM true (demo_world true)
                  2 edge_C eq_refl eq_refl eq_refl eq_refl)).
Defined.

(** C6. Take a selected edge that is sharp.  SharpToSeam with clearOriginal =
    true followed by SeamToSharp with clearOriginal = true, both through the
    general operator or both through the quick operators, finishes twice and
    leaves that edge sharp and not a seam. *)
Theorem C6_sharp_seam_round_trip
  (w : World) (i : nat) (e : BMEdge) :
  valid_target w ->
  edges (edit_mesh w) !! i = Some e ->
  select e = true ->
  isSharp e = true ->
  (exists w1 w2 e2,
      execute SHARP_TO_SEAM true w = (inr FINISHED, w1)
      /\ execute SEAM_TO_SHARP true w1 = (inr FINISHED, w2)
      /\ edges (edit_mesh w2) !! i = Some e2
      /\ isSharp e2 = true /\ isSeam e2 = false)
  /\ (exists w1 w2 e2,
      MESH_OT_quick_convert_sharp_to_seam.execute true w = (inr FINISHED, w1)
      /\ MESH_OT_quick_convert_seam_to_sharp.execute true w1 = (inr FINISHED, w2)
      /\ edges (edit_mesh w2) !! i = Some e2
      /\ isSharp e2 = true /\ isSeam e2 = false).
Proof.
  intros Hv He Hs Hsharp.
  pose proof (selected_nonempty _ _ _ He Hs) as Hne.
  set (e1 := with_smooth true (with_seam true e)).
  set (e2 := with_seam false (with_smooth false e1)).
  assert (Hfirst : forall msg w1, finished_post msg SHARP_TO_SEAM true w w1 ->
            valid_target w1 /\ edges (edit_mesh w1) !! i = Some e1).
  { intros msg w1 [Ha _ Hmesh _ _]. split.
    - unfold valid_target. by rewrite Ha.
    - rewrite Hmesh, (converted_mesh_lookup _ _ _ i e He), Hs.
      unfold convert_edge, source_predicate. by rewrite Hsharp. }
  assert (Hsecond : forall msg w1 w2,
            edges (edit_mesh w1) !! i = Some e1 ->
            finished_post msg SEAM_TO_SHARP true w1 w2 ->
            edges (edit_mesh w2) !! i = Some e2).
  { intros msg w1 w2 He1 [_ _ Hmesh _ _].
    rewrite Hmesh, (converted_mesh_lookup _ _ _ i e1 He1).
    change (select e1) with (select e). rewrite Hs. reflexivity. }
  split.
  - destruct (execute_finished SHARP_TO_SEAM true w Hv Hne) as (w1 & Hrun1 & Hp1).
    destruct (Hfirst _ _ Hp1) as [Hv1 He1].
    destruct (execute_finished SEAM_TO_SHARP true w1 Hv1
                (selected_nonempty _ _ _ He1 Hs)) as (w2 & Hrun2 & Hp2).
    exists w1, w2, e2. repeat split; try assumption.
    by eapply Hsecond.
  - destruct (quick_execute_finished SHARP_TO_SEAM true w Hv Hne) as (w1 & Hrun1 & Hp1).
    destruct (Hfirst _ _ Hp1) as [Hv1 He1].
    destruct (quick_execute_finished SEAM_TO_SHARP true w1 Hv1
                (selected_nonempty _ _ _ He1 Hs)) as (w2 & Hrun2 & Hp2).
    exists w1, w2, e2. repeat split; try assumption.
    by eapply Hsecond.
Qed.

Lemma C6_sharp_seam_round_trip_witness :
  exists w1 w2 e2,
    execute SHARP_TO_SEAM true (demo_world true) = (inr FINISHED, w1)
    /\ execute SEAM_TO_SHARP true w1 = (inr FINISHED, w2)
    /\ edges (edit_mesh w2) !! 0 = Some e2
    /\ isSharp e2 = true /\ isSeam e2 = false.
Proof.
  apply (C6_sharp_seam_round_trip (demo_world true) 0 edge_A); reflexivity.
Defined.

(** C7. For a rule that touches bevel weight, on a valid target, the general
    operator and the quick operator of that rule ensure the layer first and
    enumerate the edges afterwards: every call logged before the enumeration
    leaves the edges alone, the mesh holds the layer when
    [ensure_bevel_layer] has returned, which is where the enumeration
    follows, and no layer call comes after it. *)
Theorem C7_layer_ensured_before_edges_collected
  (ct : ConversionType) (co : bool) (w : World) :
  touches_bevel ct = true ->
  valid_target w ->
  storage_before_capture w (bevel_layer_of (edit_mesh w)) (execute ct co w).2
  /\ storage_before_capture w (bevel_layer_of (edit_mesh w))
       (quick_execute ct co w).2.
Proof.
  intros Hb Hv.
  assert (Hpw : prologue_world ct w = ensured_world (enter_edit w)).
  { rewrite prologue_world_enter. by rewrite Hb. }
  assert (Hpre : forallb (fun c => negb (touches_edges c)) (prologue_calls ct w) = true).
  { unfold prologue_calls, ensure_calls.
    destruct (negb (String.eqb (mode w) "EDIT_MESH")), (touches_bevel ct);
      try reflexivity;
      destruct (has_bevel_weight_attr (edit_mesh w)); try reflexivity;
      by destruct (decide _). }
  assert (Hmain : forall msg,
            storage_before_capture w (bevel_layer_of (edit_mesh w))
              (main_pass msg ct co (bw_layer_for ct (edit_mesh w))
                 (prologue_world ct w)).2).
  { intros msg.
    assert (Hshape : exists post,
              calls (main_pass msg ct co (bw_layer_for ct (edit_mesh w))
                       (prologue_world ct w)).2
              = calls w ++ prologue_calls ct w ++ edges_iter_call :: post
              /\ forallb (fun c => negb (is_layer_call c || is_capture c)) post
                 = true).
    { destruct (selected_edges_of (edit_mesh w)) as [|j sel] eqn:Hsel.
      - rewrite (main_pass_after_prologue_cancelled msg ct co w Hsel).
        exists []. simpl. by rewrite <- app_assoc.
      - destruct (main_pass_after_prologue_finished msg ct co w) as (w' & Hrun & Hp).
        { by rewrite Hsel. }
        rewrite Hrun. destruct Hp as [_ _ _ _ (t & Ht & Hw)].
        exists (t ++ [update_edit_mesh_call]). split; [exact Ht|].
        rewrite forallb_app. simpl. rewrite andb_true_r.
        clear Ht. induction t as [|c t IH]; [reflexivity|].
        simpl in *. apply andb_true_iff in Hw as [Hc Hw].
        rewrite (IH Hw), andb_true_r. by destruct c. }
    destruct Hshape as (post & Hcalls & Hpost).
    exists (prologue_calls ct w), post, (ensured_world (enter_edit w)).
    repeat split; try assumption.
    - by rewrite ensure_bevel_layer_run, enter_edit_mesh.
    - by rewrite <- Hpw.
    - unfold ensured_world. cbn [edit_mesh]. rewrite enter_edit_mesh.
      simpl. by apply elem_of_union_l, elem_of_singleton_2. }
  split.
  - rewrite (execute_prologue ct co w Hv). apply Hmain.
  - rewrite (quick_execute_prologue ct co w Hv). apply Hmain.
Qed.

Lemma C7_layer_ensured_before_edges_collected_witness :
  storage_before_capture (demo_world false)
    (bevel_layer_of (edit_mesh (demo_world false)))
    (execute SEAM_TO_BEVEL true (demo_world false)).2.
Proof.
  exact (proj1 (C7_layer_ensured_before_edges_collected SEAM_TO_BEVEL true
                  (demo_world false) eq_refl eq_refl)).
Defined.

(** C8. Where the host does not expose the dedicated bevel-weight layer,
    [ensure_bevel_layer] does not raise: it returns the generic float layer
    "bevel_weight_edge", which the mesh then holds.  A layer that was already
    there is obtained with one lookup and the mesh is unchanged; a missing
    one is allocated.  Nothing is reported, and on such a host every operator
    still finishes on a valid, non-empty selection, with one INFO report. *)
Theorem C8_fallback_layer_recovers (w : World) :
  has_bevel_weight_attr (edit_mesh w) = false ->
  let l := LayerFloat "bevel_weight_edge" in
  (exists w1,
      ensure_bevel_layer w = (inr l, w1)
      /\ l ∈ edge_layers (edit_mesh w1)
      /\ edges (edit_mesh w1) = edges (edit_mesh w)
      /\ reports w1 = reports w
      /\ (l ∈ edge_layers (edit_mesh w) ->
          edit_mesh w1 = edit_mesh w
          /\ calls w1 = calls w ++ [layers_float_get_call "bevel_weight_edge"])
      /\ (l ∉ edge_layers (edit_mesh w) ->
          edge_layers (edit_mesh w1) = {[ l ]} ∪ edge_layers (edit_mesh w)
          /\ calls w1 = calls w ++ [layers_float_get_call "bevel_weight_edge";
                                    layers_float_new_call "bevel_weight_edge"]))
  /\ (forall ct co,
        valid_target w ->
        selected_edges_of (edit_mesh w) ≠ [] ->
        (exists w' n, execute ct co w = (inr FINISHED, w')
                      /\ reports w' = reports w ++ [(INFO, msg_done n)])
        /\ (exists w' n, quick_execute ct co w = (inr FINISHED, w')
                         /\ reports w' = reports w ++ [(INFO, msg_quick_done n)])).
Proof.
  intros Hattr l. split.
  - exists (ensured_world w).
    assert (Hl : bevel_layer_of (edit_mesh w) = l).
    { unfold bevel_layer_of. by rewrite Hattr. }
    rewrite ensure_bevel_layer_run, Hl.
    unfold ensured_world, ensure_calls. rewrite Hl, Hattr. simpl.
    repeat split.
    + by apply elem_of_union_l, elem_of_singleton_2.
    + by apply add_layer_present.
    + by rewrite decide_True.
    + by rewrite decide_False.
  - intros ct co Hv Hne. split.
    + destruct (execute_finished ct co w Hv Hne) as (w' & Hrun & Hp).
      exists w', (count_source ct (edit_mesh w) (selected_edges_of (edit_mesh w))).
      split; [exact Hrun | apply Hp].
    + destruct (quick_execute_finished ct co w Hv Hne) as (w' & Hrun & Hp).
      exists w', (count_source ct (edit_mesh w) (selected_edges_of (edit_mesh w))).
      split; [exact Hrun | apply Hp].
Qed.

Lemma C8_fallback_layer_recovers_witness :
  exists w1,
    ensure_bevel_layer (demo_world false)
    = (inr (LayerFloat "bevel_weight_edge"), w1)
    /\ LayerFloat "bevel_weight_edge" ∈ edge_layers (edit_mesh w1).
Proof.
  destruct (C8_fallback_layer_recovers (demo_world false) eq_refl)
    as [(w1 & Hrun & Hin & _) _].
  exists w1. split; assumption.
Defined.

(** C9. Each quick operator agrees with the general operator run with the
    rule it hard-codes and the same clear flag, on every world: the same
    outcome, the same mesh, mode, active object and call log, and the same
    reports except that a finished run words its INFO report differently,
    around the same modified count. *)
Theorem C9_quick_operators_agree
  (ct : ConversionType) (co : bool) (w : World) :
  quick_agrees (execute ct co w) (quick_execute ct co w).
Proof.
  unfold quick_agrees.
  destruct (not_a_mesh (active_object w)) eqn:Hobj.
  - left. rewrite (execute_invalid ct co w Hobj), (quick_execute_invalid ct co w Hobj).
    split; reflexivity.
  - rewrite (execute_prologue ct co w Hobj), (quick_execute_prologue ct co w Hobj).
    destruct (selected_edges_of (edit_mesh w)) as [|j sel] eqn:Hsel.
    + left. rewrite !(main_pass_after_prologue_cancelled _ ct co w Hsel).
      split; reflexivity.
    + right.
      destruct (main_pass_finished ct co (bw_layer_for ct (edit_mesh w))
                  (prologue_world ct w)) as (w3 & Hrun & _).
      { simpl. rewrite selected_ensured_mesh, Hsel. discriminate. }
      { apply bw_layer_for_Some. }
      rewrite !Hrun. eauto.
Qed.

(** After a pass with clearOriginal = true a visited edge no longer satisfies
    the source predicate of the rule. *)
Lemma source_predicate_cleared (ct : ConversionType) (bw : option BMLayerItem)
  (e : BMEdge) :
  source_predicate ct (convert_edge ct true bw e) = false.
Proof.
  unfold convert_edge.
  destruct (source_predicate ct e) eqn:Hp; [|exact Hp].
  destruct ct, bw; reflexivity.
Qed.

Lemma convert_edge_idem (ct : ConversionType) (bw bw' : option BMLayerItem)
  (e : BMEdge) :
  convert_edge ct true bw' (convert_edge ct true bw e) = convert_edge ct true bw e.
Proof.
  unfold convert_edge at 1. by rewrite source_predicate_cleared.
Qed.

Lemma ensured_mesh_idem (ct : ConversionType) (bm : BMesh) :
  ensured_mesh ct (ensured_mesh ct bm) = ensured_mesh ct bm.
Proof.
  unfold ensured_mesh. destruct (touches_bevel ct); [|reflexivity].
  apply add_layer_idem.
Qed.

Lemma converted_mesh_idem (ct : ConversionType) (bm : BMesh) :
  converted_mesh ct true (converted_mesh ct true bm) = converted_mesh ct true bm.
Proof.
  apply BMesh_eq.
  - unfold converted_mesh at 1. cbn [edges set_edges].
    unfold converted_mesh at 2. cbn [edges set_edges].
    unfold convert_selected. rewrite <- list_fmap_compose.
    apply list_fmap_ext. intros _ e _. simpl.
    destruct (select e) eqn:Hs; rewrite ?select_convert_edge, Hs; [|reflexivity].
    apply convert_edge_idem.
  - by rewrite !attr_converted_mesh.
  - unfold converted_mesh, ensured_mesh. simpl.
    destruct (touches_bevel ct); simpl; [|reflexivity].
    change (bevel_layer_of (set_edges _ (add_layer _ bm))) with (bevel_layer_of bm).
    by rewrite (assoc_L (∪)), union_idemp_L.
Qed.

Lemma count_source_converted (ct : ConversionType) (bm : BMesh) :
  count_source ct (converted_mesh ct true bm) (selected_edges_of bm) = 0.
Proof.
  unfold count_source.
  rewrite (List.filter_ext_in _ (fun _ => false)).
  { by rewrite List.filter_false. }
  intros j Hj.
  apply list_elem_of_In, elem_of_selected_edges_of in Hj as (e & He & Hs).
  unfold satisfies_source.
  rewrite (converted_mesh_lookup ct true bm j e He), Hs. simpl.
  apply source_predicate_cleared.
Qed.

(** Two runs in a row of an operator that has the shape of the general one,
    with clearOriginal = true. *)
Lemma second_run_changes_nothing (msg : nat -> string) (ct : ConversionType)
  (op : M Outcome) :
  (forall w, not_a_mesh (active_object w) = true ->
             op w = (inr CANCELLED, add_report (WARNING, msg_select_mesh) w)) ->
  (forall w, valid_target w ->
             op w = main_pass msg ct true (bw_layer_for ct (edit_mesh w))
                      (prologue_world ct w)) ->
  forall w,
    edit_mesh (op (op w).2).2 = edit_mesh (op w).2
    /\ ((op w).1 = inr FINISHED ->
        (op (op w).2).1 = inr FINISHED
        /\ reports (op (op w).2).2 = reports (op w).2 ++ [(INFO, msg 0)]).
Proof.
  intros Hinv Hval w.
  destruct (not_a_mesh (active_object w)) eqn:Hobj.
  - rewrite (Hinv w Hobj). simpl.
    rewrite (Hinv (add_report (WARNING, msg_select_mesh) w) Hobj). simpl.
    split; [reflexivity | discriminate].
  - rewrite (Hval w Hobj).
    destruct (selected_edges_of (edit_mesh w)) as [|j sel] eqn:Hsel.
    + rewrite (main_pass_after_prologue_cancelled msg ct true w Hsel). simpl.
      rewrite (Hval (cancelled_world ct w) Hobj).
      rewrite main_pass_after_prologue_cancelled.
      * simpl. split; [apply ensured_mesh_idem | discriminate].
      * simpl. by rewrite selected_ensured_mesh.
    + destruct (main_pass_after_prologue_finished msg ct true w)
        as (w1 & Hrun1 & [Ha1 Hm1 Hmesh1 Hr1 _]).
      { by rewrite Hsel. }
      rewrite Hrun1. simpl.
      assert (Hv1 : valid_target w1) by (unfold valid_target; by rewrite Ha1).
      assert (Hsel1 : selected_edges_of (edit_mesh w1)
                      = selected_edges_of (edit_mesh w)).
      { rewrite Hmesh1. apply selected_converted_mesh. }
      rewrite (Hval w1 Hv1).
      destruct (main_pass_after_prologue_finished msg ct true w1)
        as (w2 & Hrun2 & [_ _ Hmesh2 Hr2 _]).
      { by rewrite Hsel1, Hsel. }
      rewrite Hrun2. simpl.
      split.
      * rewrite Hmesh2, Hmesh1. apply converted_mesh_idem.
      * intros _. split; [reflexivity|].
        rewrite Hr2, Hsel1, Hmesh1. by rewrite count_source_converted.
Qed.

(** C10. With clearOriginal = true, running the same rule again straight
    away changes nothing in the mesh: every edge keeps its sharp and seam
    flags and its layer values, bevel weight included.  When the first run
    finished, so does the second, and the count it reports is 0.  This holds
    for the general operator and for each quick operator. *)
Theorem C10_second_run_modifies_nothing (ct : ConversionType) (w : World) :
  (edit_mesh (execute ct true (execute ct true w).2).2
   = edit_mesh (execute ct true w).2
   /\ ((execute ct true w).1 = inr FINISHED ->
       (execute ct true (execute ct true w).2).1 = inr FINISHED
       /\ reports (execute ct true (execute ct true w).2).2
          = reports (execute ct true w).2 ++ [(INFO, msg_done 0)]))
  /\ (edit_mesh (quick_execute ct true (quick_execute ct true w).2).2
      = edit_mesh (quick_execute ct true w).2
      /\ ((quick_execute ct true w).1 = inr FINISHED ->
          (quick_execute ct true (quick_execute ct true w).2).1 = inr FINISHED
          /\ reports (quick_execute ct true (quick_execute ct true w).2).2
             = reports (quick_execute ct true w).2 ++ [(INFO, msg_quick_done 0)])).
Proof.
  split.
  - apply (second_run_changes_nothing msg_done ct (execute ct true)).
    + intros w0. apply execute_invalid.
    + intros w0. apply execute_prologue.
  - apply (second_run_changes_nothing msg_quick_done ct (quick_execute ct true)).
    + intros w0. apply quick_execute_invalid.
    + intros w0. apply quick_execute_prologue.
Qed.

Lemma C10_second_run_modifies_nothing_witness :
  (execute SHARP_TO_SEAM true
     (execute SHARP_TO_SEAM true (demo_world true)).2).1 = inr FINISHED
  /\ reports (execute SHARP_TO_SEAM true
                (execute SHARP_TO_SEAM true (demo_world true)).2).2
     = reports (execute SHARP_TO_SEAM true (demo_world true)).2
       ++ [(INFO, msg_done 0)].
Proof.
  apply (C10_second_run_modifies_nothing SHARP_TO_SEAM (demo_world true)).
  reflexivity.
Defined.

(** * Further properties of the operators *)

Lemma run_op_shape (o : Operator) (ct : ConversionType) (co : bool) (w : World) :
  run_shape (msg_of o) ct co w (run_op o ct co w).
Proof.
  destruct (not_a_mesh (active_object w)) eqn:Hobj.
  - destruct o; simpl.
    + rewrite (execute_invalid ct co w Hobj). by constructor.
    + rewrite (quick_execute_invalid ct co w Hobj). by constructor.
  - destruct (selected_edges_of (edit_mesh w)) as [|j sel] eqn:Hsel.
    + destruct o; simpl.
      * rewrite (execute_cancelled ct co w Hobj Hsel). by constructor.
      * rewrite (quick_execute_cancelled ct co w Hobj Hsel). by constructor.
    + assert (Hne : selected_edges_of (edit_mesh w) ≠ []) by (by rewrite Hsel).
      destruct o; simpl.
      * destruct (execute_finished ct co w Hobj Hne) as (w' & Hrun & Hp).
        rewrite Hrun. by constructor.
      * destruct (quick_execute_finished ct co w Hobj Hne) as (w' & Hrun & Hp).
        rewrite Hrun. by constructor.
Qed.

Lemma new_calls_app (w w' : World) (t : list HostCall) :
  calls w' = calls w ++ t -> new_calls w w' = t.
Proof. intros H. unfold new_calls. rewrite H. apply drop_app_length. Qed.

(** X1. No operator ever raises, and the outcome and the one report it adds
    are decided by the target and the selection alone: CANCELLED with the
    "select a mesh" warning without a mesh, CANCELLED with the "no edges"
    warning on an empty selection, FINISHED with one INFO report
    otherwise. *)
Theorem X1_outcome_and_report
  (o : Operator) (ct : ConversionType) (co : bool) (w : World) :
  (run_op o ct co w).1
  = inr (if not_a_mesh (active_object w) then CANCELLED
         else match selected_edges_of (edit_mesh w) with
              | [] => CANCELLED
              | _ :: _ => FINISHED
              end)
  /\ reports (run_op o ct co w).2
     = reports w ++
       [if not_a_mesh (active_object w) then (WARNING, msg_select_mesh)
        else match selected_edges_of (edit_mesh w) with
             | [] => (WARNING, msg_no_edges)
             | _ :: _ =>
                 (INFO, msg_of o (count_source ct (edit_mesh w)
                                    (selected_edges_of (edit_mesh w))))
             end].
Proof.
  destruct (run_op_shape o ct co w) as [Hobj | Hv Hsel | w' Hv Hne Hp].
  - rewrite Hobj. split; reflexivity.
  - unfold valid_target in Hv. rewrite Hv, Hsel. split; reflexivity.
  - unfold valid_target in Hv. rewrite Hv.
    destruct Hp as [_ _ _ Hr _]. simpl. rewrite Hr.
    destruct (selected_edges_of (edit_mesh w)); [done|]. split; reflexivity.
Qed.

(** X2. An edge that is not selected, or that does not satisfy the source
    predicate of the rule, is the same edge after any run of any operator:
    flags and every layer value. *)
Theorem X2_unvisited_edge_unchanged
  (o : Operator) (ct : ConversionType) (co : bool) (w : World)
  (i : nat) (e : BMEdge) :
  edges (edit_mesh w) !! i = Some e ->
  select e = false \/ source_predicate ct e = false ->
  edges (edit_mesh (run_op o ct co w).2) !! i = Some e.
Proof.
  intros He Hskip.
  destruct (run_op_shape o ct co w) as [Hobj | Hv Hsel | w' Hv Hne Hp]; simpl.
  - exact He.
  - by rewrite edges_ensured_mesh.
  - destruct Hp as [_ _ Hmesh _ _].
    rewrite Hmesh, (converted_mesh_lookup ct co _ i e He).
    destruct Hskip as [Hs | Hs].
    + by rewrite Hs.
    + unfold convert_edge. rewrite Hs. by destruct (select e).
Qed.

Lemma X2_unvisited_edge_unchanged_witness :
  edges (edit_mesh (run_op Quick SHARP_TO_BEVEL true (demo_world true)).2) !! 3
  = Some edge_D.
Proof.
  exact (X2_unvisited_edge_unchanged Quick SHARP_TO_BEVEL true (demo_world true)
           3 edge_D eq_refl (or_introl eq_refl)).
Defined.

(** X3. No run creates, removes, selects or deselects an edge: the selection
    flags of the edge sequence, hence its length and the handles a later run
    will visit, are the same afterwards. *)
Theorem X3_selection_preserved
  (o : Operator) (ct : ConversionType) (co : bool) (w : World) :
  select <$> edges (edit_mesh (run_op o ct co w).2)
  = select <$> edges (edit_mesh w)
  /\ length (edges (edit_mesh (run_op o ct co w).2)) = length (edges (edit_mesh w))
  /\ selected_edges_of (edit_mesh (run_op o ct co w).2)
     = selected_edges_of (edit_mesh w).
Proof.
  assert (Hsel : select <$> edges (edit_mesh (run_op o ct co w).2)
                 = select <$> edges (edit_mesh w)).
  { destruct (run_op_shape o ct co w) as [Hobj | Hv Hsel | w' Hv Hne Hp]; simpl.
    - reflexivity.
    - by rewrite edges_ensured_mesh.
    - destruct Hp as [_ _ Hmesh _ _]. rewrite Hmesh.
      unfold converted_mesh, convert_selected. simpl.
      rewrite <- list_fmap_compose. apply list_fmap_ext. intros _ e _. simpl.
      destruct (select e) eqn:Hs; [|exact Hs]. by rewrite select_convert_edge. }
  split; [exact Hsel|]. split.
  - by rewrite <- (length_fmap select), Hsel, length_fmap.
  - unfold selected_edges_of. by apply select_from_ext.
Qed.

(** X4. The rule table, for every operator, rule and clear flag.  A selected
    edge that satisfies the source predicate is still there and still
    selected after the run, which finishes; its destination attribute is set
    (bevel weight 1.0, seam, or sharp), its source attribute is cleared
    exactly when the clear flag is on, and the attribute the rule does not
    mention is as before. *)
Theorem X4_rule_table
  (o : Operator) (ct : ConversionType) (co : bool) (w : World)
  (i : nat) (e : BMEdge) :
  valid_target w ->
  edges (edit_mesh w) !! i = Some e ->
  select e = true ->
  source_predicate ct e = true ->
  exists w' e',
    run_op o ct co w = (inr FINISHED, w')
    /\ edges (edit_mesh w') !! i = Some e'
    /\ select e' = true
    /\ match ct with
       | SHARP_TO_BEVEL =>
           bevelWeight (edit_mesh w') e' = 1%float
           /\ smooth e' = co /\ seam e' = seam e
       | SHARP_TO_SEAM =>
           seam e' = true /\ smooth e' = co /\ layer_data e' = layer_data e
       | SEAM_TO_SHARP =>
           smooth e' = false /\ seam e' = negb co
           /\ layer_data e' = layer_data e
       | SEAM_TO_BEVEL =>
           bevelWeight (edit_mesh w') e' = 1%float
           /\ seam e' = negb co /\ smooth e' = smooth e
       end.
Proof.
  intros Hv He Hs Hp.
  pose proof (selected_nonempty _ _ _ He Hs) as Hne.
  destruct (run_op_shape o ct co w) as [Hobj | _ Hsel | w' _ _ Hpost].
  - unfold valid_target in Hv. congruence.
  - contradiction.
  - destruct Hpost as [_ _ Hmesh _ _].
    exists w'. eexists. split; [reflexivity|].
    rewrite Hmesh. split; [by apply converted_mesh_lookup|].
    rewrite Hs. split; [by rewrite select_convert_edge|].
    unfold bevelWeight, bevel_layer_of. rewrite ?attr_converted_mesh.
    unfold convert_edge. rewrite Hp.
    unfold source_predicate, isSharp, isSeam in Hp.
    destruct ct; simpl in Hp |- *;
      try apply negb_true_iff in Hp;
      destruct co; simpl; rewrite ?Hp;
      repeat split;
      apply (getitem_with_item _ _ e).
Qed.

Lemma X4_rule_table_witness :
  exists w' e',
    run_op Quick SEAM_TO_SHARP false (demo_world true) = (inr FINISHED, w')
    /\ edges (edit_mesh w') !! 1 = Some e'
    /\ select e' = true
    /\ smooth e' = false /\ seam e' = negb false
    /\ layer_data e' = layer_data edge_B.
Proof.
  exact (X4_rule_table Quick SEAM_TO_SHARP false (demo_world true) 1 edge_B
           eq_refl eq_refl eq_refl eq_refl).
Defined.

(** X5. The only layer value a run can change is the one of the bevel-weight
    layer of the mesh: on every edge, every other layer reads as before, and a
    rule that does not touch bevel weight leaves the whole custom-data block
    of every edge as it was. *)
Theorem X5_other_layers_untouched
  (o : Operator) (ct : ConversionType) (co : bool) (w : World)
  (i : nat) (e : BMEdge) (l : BMLayerItem) :
  edges (edit_mesh w) !! i = Some e ->
  l ≠ bevel_layer_of (edit_mesh w) ->
  exists e',
    edges (edit_mesh (run_op o ct co w).2) !! i = Some e'
    /\ getitem e' l = getitem e l
    /\ (touches_bevel ct = false -> layer_data e' = layer_data e).
Proof.
  intros He Hl.
  destruct (run_op_shape o ct co w) as [Hobj | Hv Hsel | w' Hv Hne Hp]; simpl.
  - exists e. by repeat split.
  - exists e. rewrite edges_ensured_mesh. by repeat split.
  - destruct Hp as [_ _ Hmesh _ _].
    eexists. rewrite Hmesh. split; [by apply converted_mesh_lookup|].
    destruct (select e); [|by split].
    unfold convert_edge. destruct (source_predicate ct e); [|by split].
    unfold bw_layer_for, getitem.
    destruct ct, co; simpl; split; try reflexivity; try discriminate;
      by rewrite lookup_insert_ne.
Qed.

Lemma X5_other_layers_untouched_witness :
  exists e',
    edges (edit_mesh (run_op General SHARP_TO_BEVEL true (demo_world true)).2) !! 0
    = Some e'
    /\ getitem e' (LayerFloat "crease") = getitem edge_A (LayerFloat "crease")
    /\ (touches_bevel SHARP_TO_BEVEL = false -> layer_data e' = layer_data edge_A).
Proof.
  refine (X5_other_layers_untouched General SHARP_TO_BEVEL true (demo_world true)
            0 edge_A (LayerFloat "crease") eq_refl _).
  discriminate.
Defined.

(** X6. The set of edge layers after a run: a bevel rule on a mesh target has
    ensured the bevel-weight layer and nothing else; every other run (no mesh
    target, or a rule between sharp and seam) leaves the set of layers as it
    was.  No run removes a layer. *)
Theorem X6_layers_after_run
  (o : Operator) (ct : ConversionType) (co : bool) (w : World) :
  edge_layers (edit_mesh (run_op o ct co w).2)
  = (if negb (not_a_mesh (active_object w)) && touches_bevel ct
     then {[ bevel_layer_of (edit_mesh w) ]} ∪ edge_layers (edit_mesh w)
     else edge_layers (edit_mesh w))
  /\ edge_layers (edit_mesh w) ⊆ edge_layers (edit_mesh (run_op o ct co w).2)
  /\ has_bevel_weight_attr (edit_mesh (run_op o ct co w).2)
     = has_bevel_weight_attr (edit_mesh w).
Proof.
  assert (Hens : edge_layers (ensured_mesh ct (edit_mesh w))
                 = if touches_bevel ct
                   then {[ bevel_layer_of (edit_mesh w) ]} ∪ edge_layers (edit_mesh w)
                   else edge_layers (edit_mesh w)).
  { unfold ensured_mesh. by destruct (touches_bevel ct). }
  assert (Hsub : edge_layers (edit_mesh w) ⊆ edge_layers (ensured_mesh ct (edit_mesh w))).
  { rewrite Hens. destruct (touches_bevel ct); [apply union_subseteq_r | done]. }
  destruct (run_op_shape o ct co w) as [Hobj | Hv Hsel | w' Hv Hne Hp]; simpl.
  - rewrite Hobj. by repeat split.
  - unfold valid_target in Hv. rewrite Hv. simpl.
    split; [exact Hens|]. split; [exact Hsub | apply attr_ensured_mesh].
  - unfold valid_target in Hv. rewrite Hv. simpl.
    destruct Hp as [_ _ Hmesh _ _]. rewrite Hmesh.
    split; [exact Hens|]. split; [exact Hsub | apply attr_converted_mesh].
Qed.

Lemma filter_edge_writes (P : HostCall -> bool) (t : list HostCall) :
  (forall c, is_edge_write c = true -> P c = false) ->
  forallb is_edge_write t = true ->
  List.filter P t = [].
Proof.
  intros HP. induction t as [|c t IH]; simpl; [done|].
  intros [Hc Ht]%andb_true_iff. rewrite (HP c Hc). by apply IH.
Qed.

Lemma filter_prologue_calls (P : HostCall -> bool) (ct : ConversionType) (w : World) :
  (forall c, is_layer_call c = true -> P c = false) ->
  P from_edit_mesh_call = false ->
  List.filter P (prologue_calls ct w)
  = if negb (String.eqb (mode w) "EDIT_MESH")
    then List.filter P [mode_set_call "EDIT"] else [].
Proof.
  intros HP Hfrom. unfold prologue_calls.
  assert (Hens : List.filter P
                   (if touches_bevel ct then ensure_calls (edit_mesh w) else []) = []).
  { destruct (touches_bevel ct); [|reflexivity].
    unfold ensure_calls.
    destruct (has_bevel_weight_attr (edit_mesh w)); [|destruct (decide _)];
      simpl; by rewrite ?HP. }
  rewrite !List.filter_app, Hens. simpl. rewrite Hfrom.
  destruct (negb (String.eqb (mode w) "EDIT_MESH")); simpl;
    by rewrite ?app_nil_r.
Qed.

(** X7. Edit mode.  Without a mesh target a run makes no host call and leaves
    the mode alone.  With one, the run ends in edit mode with the same active
    object, and it has asked the host to switch mode exactly when the mode
    was not EDIT_MESH to begin with, and then once. *)
Theorem X7_edit_mode
  (o : Operator) (ct : ConversionType) (co : bool) (w : World) :
  active_object (run_op o ct co w).2 = active_object w
  /\ (not_a_mesh (active_object w) = true ->
      mode (run_op o ct co w).2 = mode w
      /\ calls (run_op o ct co w).2 = calls w)
  /\ (valid_target w ->
      mode (run_op o ct co w).2 = "EDIT_MESH"%string
      /\ List.filter is_mode_set (new_calls w (run_op o ct co w).2)
         = if String.eqb (mode w) "EDIT_MESH" then []
           else [mode_set_call "EDIT"]).
Proof.
  assert (Hpro : List.filter is_mode_set (prologue_calls ct w)
                 = if String.eqb (mode w) "EDIT_MESH" then []
                   else [mode_set_call "EDIT"]).
  { rewrite filter_prologue_calls; [|by intros []|reflexivity].
    by destruct (String.eqb (mode w) "EDIT_MESH"). }
  destruct (run_op_shape o ct co w) as [Hobj | Hv Hsel | w' Hv Hne Hp]; simpl.
  - split; [reflexivity|]. split; [done|].
    unfold valid_target. congruence.
  - split; [reflexivity|]. split.
    { unfold valid_target in Hv. congruence. }
    intros _. split; [reflexivity|].
    rewrite (new_calls_app w _ (prologue_calls ct w ++ [edges_iter_call])).
    + rewrite List.filter_app, Hpro. simpl. by rewrite app_nil_r.
    + simpl. by rewrite <- app_assoc.
  - destruct Hp as [Ha Hm _ _ (t & Ht & Hw)].
    split; [exact Ha|]. split.
    { unfold valid_target in Hv. congruence. }
    intros _. split; [exact Hm|].
    rewrite (new_calls_app w w' _ Ht).
    rewrite !List.filter_app, Hpro.
    rewrite (filter_edge_writes is_mode_set t); [|by intros []|exact Hw].
    simpl. by rewrite app_nil_r.
Qed.

Lemma X7_edit_mode_witness :
  mode (run_op General SHARP_TO_SEAM true (demo_world true)).2 = "EDIT_MESH"%string
  /\ List.filter is_mode_set
       (new_calls (demo_world true)
          (run_op General SHARP_TO_SEAM true (demo_world true)).2)
     = if String.eqb (mode (demo_world true)) "EDIT_MESH" then []
       else [mode_set_call "EDIT"].
Proof.
  exact (proj2 (proj2 (X7_edit_mode General SHARP_TO_SEAM true (demo_world true)))
           eq_refl).
Defined.

(** X8. The host protocol of a run.  The edges are enumerated once per run on
    a mesh target, whatever the outcome.  [update_edit_mesh] is called once
    by a finished run, as its last host call, and never by a cancelled
    one; a cancelled run writes no edge. *)
Theorem X8_update_once_after_the_pass
  (o : Operator) (ct : ConversionType) (co : bool) (w : World) :
  List.filter is_capture (new_calls w (run_op o ct co w).2)
  = (if not_a_mesh (active_object w) then [] else [edges_iter_call])
  /\ List.filter is_update (new_calls w (run_op o ct co w).2)
     = match (run_op o ct co w).1 with
       | inr FINISHED => [update_edit_mesh_call]
       | _ => []
       end
  /\ ((run_op o ct co w).1 = inr FINISHED ->
      last (calls (run_op o ct co w).2) = Some update_edit_mesh_call)
  /\ ((run_op o ct co w).1 = inr CANCELLED ->
      List.filter is_edge_write (new_calls w (run_op o ct co w).2) = []).
Proof.
  assert (Hcap : List.filter is_capture (prologue_calls ct w) = []).
  { rewrite filter_prologue_calls; [|by intros []|reflexivity].
    by destruct (negb (String.eqb (mode w) "EDIT_MESH")). }
  assert (Hupd : List.filter is_update (prologue_calls ct w) = []).
  { rewrite filter_prologue_calls; [|by intros []|reflexivity].
    by destruct (negb (String.eqb (mode w) "EDIT_MESH")). }
  assert (Hwr : List.filter is_edge_write (prologue_calls ct w) = []).
  { rewrite filter_prologue_calls; [|by intros []|reflexivity].
    by destruct (negb (String.eqb (mode w) "EDIT_MESH")). }
  destruct (run_op_shape o ct co w) as [Hobj | Hv Hsel | w' Hv Hne Hp]; simpl.
  - rewrite Hobj. rewrite (new_calls_app w _ []) by (simpl; by rewrite app_nil_r).
    by repeat split.
  - unfold valid_target in Hv. rewrite Hv.
    rewrite (new_calls_app w _ (prologue_calls ct w ++ [edges_iter_call]))
      by (simpl; by rewrite <- app_assoc).
    rewrite !List.filter_app, Hcap, Hupd, Hwr. by repeat split.
  - unfold valid_target in Hv. rewrite Hv.
    destruct Hp as [_ _ _ _ (t & Ht & Hw)].
    rewrite (new_calls_app w w' _ Ht).
    rewrite !List.filter_app, Hcap, Hupd.
    rewrite (filter_edge_writes is_capture t); [|by intros []|exact Hw].
    rewrite (filter_edge_writes is_update t); [|by intros []|exact Hw].
    repeat split; try discriminate.
    intros _. rewrite Ht, !app_assoc. apply last_snoc.
Qed.

Lemma X8_update_once_after_the_pass_witness :
  last (calls (run_op Quick SEAM_TO_BEVEL true (demo_world false)).2)
  = Some update_edit_mesh_call.
Proof.
  exact (proj1 (proj2 (proj2
           (X8_update_once_after_the_pass Quick SEAM_TO_BEVEL true
              (demo_world false)))) eq_refl).
Defined.

(** ** Runs in sequence *)

(** A run over a selected edge: it finishes, the target stays valid, and the
    edge has been converted once. *)
Lemma run_visited (o : Operator) (ct : ConversionType) (co : bool) (w : World)
  (i : nat) (e : BMEdge) :
  valid_target w ->
  edges (edit_mesh w) !! i = Some e ->
  select e = true ->
  exists w',
    run_op o ct co w = (inr FINISHED, w')
    /\ valid_target w'
    /\ has_bevel_weight_attr (edit_mesh w') = has_bevel_weight_attr (edit_mesh w)
    /\ edges (edit_mesh w') !! i
       = Some (convert_edge ct co (bw_layer_for ct (edit_mesh w)) e).
Proof.
  intros Hv He Hs.
  pose proof (selected_nonempty _ _ _ He Hs) as Hne.
  destruct (run_op_shape o ct co w) as [Hobj | _ Hsel | w' _ _ Hpost].
  - unfold valid_target in Hv. congruence.
  - contradiction.
  - destruct Hpost as [Ha _ Hmesh _ _].
    exists w'. split; [reflexivity|]. split.
    { unfold valid_target. by rewrite Ha. }
    rewrite Hmesh. split; [apply attr_converted_mesh|].
    by rewrite (converted_mesh_lookup ct co _ i e He), Hs.
Qed.

(** X9. Rules compose on disjoint attributes.  An edge that is selected,
    sharp and not a seam is turned by SharpToBevel with clearOriginal = true
    into a smooth edge of bevel weight 1.0; a SeamToSharp run that follows,
    by any operator and with any clear flag, finishes and leaves that edge
    exactly as the first run left it. *)
Theorem X9_sharp_to_bevel_then_seam_to_sharp
  (o o' : Operator) (co' : bool) (w : World) (i : nat) (e : BMEdge) :
  valid_target w ->
  edges (edit_mesh w) !! i = Some e ->
  select e = true ->
  isSharp e = true ->
  isSeam e = false ->
  exists w1 w2 e1,
    run_op o SHARP_TO_BEVEL true w = (inr FINISHED, w1)
    /\ run_op o' SEAM_TO_SHARP co' w1 = (inr FINISHED, w2)
    /\ edges (edit_mesh w1) !! i = Some e1
    /\ edges (edit_mesh w2) !! i = Some e1
    /\ isSharp e1 = false
    /\ isSeam e1 = false
    /\ bevelWeight (edit_mesh w2) e1 = 1%float.
Proof.
  intros Hv He Hs Hsharp Hseam.
  destruct (run_visited o SHARP_TO_BEVEL true w i e Hv He Hs)
    as (w1 & Hrun1 & Hv1 & Hat1 & He1).
  unfold convert_edge, source_predicate in He1. rewrite Hsharp in He1.
  simpl in He1.
  set (e1 := with_smooth true (with_item (bevel_layer_of (edit_mesh w)) 1%float e))
    in He1.
  destruct (run_visited o' SEAM_TO_SHARP co' w1 i e1 Hv1 He1 Hs)
    as (w2 & Hrun2 & _ & Hat2 & He2).
  unfold convert_edge, source_predicate in He2.
  change (isSeam e1) with (isSeam e) in He2. rewrite Hseam in He2.
  exists w1, w2, e1. repeat split; try assumption.
  unfold bevelWeight, bevel_layer_of. rewrite Hat2, Hat1.
  apply (getitem_with_item _ _ e).
Qed.

Lemma X9_sharp_to_bevel_then_seam_to_sharp_witness :
  exists w1 w2 e1,
    run_op General SHARP_TO_BEVEL true (demo_world true) = (inr FINISHED, w1)
    /\ run_op Quick SEAM_TO_SHARP true w1 = (inr FINISHED, w2)
    /\ edges (edit_mesh w1) !! 0 = Some e1
    /\ edges (edit_mesh w2) !! 0 = Some e1
    /\ isSharp e1 = false
    /\ isSeam e1 = false
    /\ bevelWeight (edit_mesh w2) e1 = 1%float.
Proof.
  exact (X9_sharp_to_bevel_then_seam_to_sharp General Quick true (demo_world true)
           0 edge_A eq_refl eq_refl eq_refl eq_refl eq_refl).
Defined.

(** X10. What the sharp/seam round trips keep.  SharpToSeam then SeamToSharp,
    both clearing, turn a selected sharp edge into that edge with its seam
    flag off: the edge comes back unchanged exactly when it was not a seam
    before.  In the other direction, SeamToSharp then SharpToSeam turn a
    selected seam edge into that edge made smooth: it comes back unchanged
    exactly when it was not sharp before. *)
Theorem X10_round_trips_exactly
  (o o' : Operator) (w : World) (i : nat) (e : BMEdge) :
  valid_target w ->
  edges (edit_mesh w) !! i = Some e ->
  select e = true ->
  (isSharp e = true ->
   exists w1 w2,
     run_op o SHARP_TO_SEAM true w = (inr FINISHED, w1)
     /\ run_op o' SEAM_TO_SHARP true w1 = (inr FINISHED, w2)
     /\ edges (edit_mesh w2) !! i = Some (with_seam false e)
     /\ (edges (edit_mesh w2) !! i = Some e <-> isSeam e = false))
  /\ (isSeam e = true ->
      exists w1 w2,
        run_op o SEAM_TO_SHARP true w = (inr FINISHED, w1)
        /\ run_op o' SHARP_TO_SEAM true w1 = (inr FINISHED, w2)
        /\ edges (edit_mesh w2) !! i = Some (with_smooth true e)
        /\ (edges (edit_mesh w2) !! i = Some e <-> isSharp e = false)).
Proof.
  intros Hv He Hs. split.
  - intros Hsharp.
    destruct (run_visited o SHARP_TO_SEAM true w i e Hv He Hs)
      as (w1 & Hrun1 & Hv1 & _ & He1).
    unfold convert_edge, source_predicate in He1. rewrite Hsharp in He1.
    simpl in He1.
    destruct (run_visited o' SEAM_TO_SHARP true w1 i _ Hv1 He1 Hs)
      as (w2 & Hrun2 & _ & _ & He2).
    assert (Hres : edges (edit_mesh w2) !! i = Some (with_seam false e)).
    { rewrite He2. f_equal.
      unfold isSharp in Hsharp. apply negb_true_iff in Hsharp.
      destruct e as [sel sm se ld]. simpl in *. by subst. }
    exists w1, w2. repeat split; try assumption.
    + rewrite Hres. intros [= Heq]. unfold isSeam. by rewrite <- Heq.
    + intros Hseam. rewrite Hres. f_equal.
      destruct e as [sel sm se ld]. unfold isSeam in Hseam. simpl in *. by subst.
  - intros Hseam.
    destruct (run_visited o SEAM_TO_SHARP true w i e Hv He Hs)
      as (w1 & Hrun1 & Hv1 & _ & He1).
    unfold convert_edge, source_predicate in He1. rewrite Hseam in He1.
    simpl in He1.
    destruct (run_visited o' SHARP_TO_SEAM true w1 i _ Hv1 He1 Hs)
      as (w2 & Hrun2 & _ & _ & He2).
    assert (Hres : edges (edit_mesh w2) !! i = Some (with_smooth true e)).
    { rewrite He2. f_equal.
      destruct e as [sel sm se ld]. unfold isSeam in Hseam. simpl in *. by subst. }
    exists w1, w2. repeat split; try assumption.
    + rewrite Hres. intros [= Heq]. unfold isSharp. by rewrite <- Heq.
    + intros Hsharp. rewrite Hres. f_equal.
      unfold isSharp in Hsharp. apply negb_false_iff in Hsharp.
      destruct e as [sel sm se ld]. simpl in *. by subst.
Qed.

Lemma X10_round_trips_exactly_witness :
  exists w1 w2,
    run_op General SEAM_TO_SHARP true (demo_world true) = (inr FINISHED, w1)
    /\ run_op General SHARP_TO_SEAM true w1 = (inr FINISHED, w2)
    /\ edges (edit_mesh w2) !! 1 = Some (with_smooth true edge_B)
    /\ (edges (edit_mesh w2) !! 1 = Some edge_B <-> isSharp edge_B = false).
Proof.
  exact (proj2 (X10_round_trips_exactly General General (demo_world true) 1 edge_B
                  eq_refl eq_refl eq_refl) eq_refl).
Defined.

(** ** Without clearing *)

Lemma source_predicate_kept (ct : ConversionType) (bw : option BMLayerItem)
  (e : BMEdge) :
  source_predicate ct (convert_edge ct false bw e) = source_predicate ct e.
Proof.
  unfold convert_edge.
  destruct (source_predicate ct e) eqn:Hp; [|exact Hp].
  destruct ct, bw; exact Hp.
Qed.

Lemma convert_edge_again (ct : ConversionType) (bw : option BMLayerItem)
  (e : BMEdge) :
  convert_edge ct false bw (convert_edge ct false bw e) = convert_edge ct false bw e.
Proof.
  unfold convert_edge at 1. rewrite source_predicate_kept.
  unfold convert_edge.
  destruct (source_predicate ct e) eqn:Hp; [|reflexivity].
  destruct ct, bw; try reflexivity;
    unfold destination_mutation, with_item; simpl; by rewrite insert_insert_eq.
Qed.

Lemma converted_mesh_again (ct : ConversionType) (bm : BMesh) :
  converted_mesh ct false (converted_mesh ct false bm) = converted_mesh ct false bm.
Proof.
  assert (Hbw : bw_layer_for ct (converted_mesh ct false bm) = bw_layer_for ct bm).
  { unfold bw_layer_for, bevel_layer_of. by rewrite attr_converted_mesh. }
  apply BMesh_eq.
  - unfold converted_mesh at 1. cbn [edges set_edges]. rewrite Hbw.
    unfold converted_mesh. cbn [edges set_edges].
    unfold convert_selected. rewrite <- list_fmap_compose.
    apply list_fmap_ext. intros _ e _. simpl.
    destruct (select e) eqn:Hs; rewrite ?select_convert_edge, Hs; [|reflexivity].
    apply convert_edge_again.
  - by rewrite !attr_converted_mesh.
  - unfold converted_mesh, ensured_mesh. simpl.
    destruct (touches_bevel ct); simpl; [|reflexivity].
    change (bevel_layer_of (set_edges _ (add_layer _ bm))) with (bevel_layer_of bm).
    by rewrite (assoc_L (∪)), union_idemp_L.
Qed.

Lemma count_source_kept (ct : ConversionType) (bm : BMesh) :
  count_source ct (converted_mesh ct false bm) (selected_edges_of bm)
  = count_source ct bm (selected_edges_of bm).
Proof.
  unfold count_source. f_equal. apply List.filter_ext_in. intros j Hj.
  apply list_elem_of_In, elem_of_selected_edges_of in Hj as (e & He & Hs).
  unfold satisfies_source.
  rewrite (converted_mesh_lookup ct false bm j e He), He, Hs. simpl.
  apply source_predicate_kept.
Qed.

(** X11. With clearOriginal = false a run can be repeated: the second run has
    the outcome of the first, leaves the mesh as the first left it, and, when
    it finishes, reports the same count again, since every converted edge
    still satisfies the source predicate. *)
Theorem X11_repeat_without_clearing
  (o : Operator) (ct : ConversionType) (w : World) :
  (run_op o ct false (run_op o ct false w).2).1 = (run_op o ct false w).1
  /\ edit_mesh (run_op o ct false (run_op o ct false w).2).2
     = edit_mesh (run_op o ct false w).2
  /\ ((run_op o ct false w).1 = inr FINISHED ->
      let n := count_source ct (edit_mesh w) (selected_edges_of (edit_mesh w)) in
      reports (run_op o ct false (run_op o ct false w).2).2
      = reports w ++ [(INFO, msg_of o n); (INFO, msg_of o n)]).
Proof.
  destruct (run_op_shape o ct false w) as [Hobj | Hv Hsel | w1 Hv Hne Hp1]; simpl.
  - destruct (run_op_shape o ct false (add_report (WARNING, msg_select_mesh) w))
      as [_ | Hv' _ | w2 Hv' _ _]; simpl;
      try (unfold valid_target in Hv'; simpl in Hv'; congruence).
    by repeat split.
  - destruct (run_op_shape o ct false (cancelled_world ct w))
      as [Hobj' | _ _ | w2 _ Hne' _]; simpl.
    + unfold valid_target in Hv. simpl in Hobj'. congruence.
    + split; [reflexivity|]. split; [apply ensured_mesh_idem | discriminate].
    + simpl in Hne'. by rewrite selected_ensured_mesh in Hne'.
  - destruct Hp1 as [Ha1 _ Hmesh1 Hr1 _].
    assert (Hsel1 : selected_edges_of (edit_mesh w1)
                    = selected_edges_of (edit_mesh w)).
    { rewrite Hmesh1. apply selected_converted_mesh. }
    destruct (run_op_shape o ct false w1) as [Hobj' | _ Hsel' | w2 _ _ Hp2]; simpl.
    + unfold valid_target in Hv. congruence.
    + congruence.
    + destruct Hp2 as [_ _ Hmesh2 Hr2 _].
      split; [reflexivity|]. split.
      * rewrite Hmesh2, Hmesh1. apply converted_mesh_again.
      * intros _. rewrite Hr2, Hr1, Hsel1, Hmesh1, count_source_kept.
        by rewrite <- app_assoc.
Qed.

Lemma X11_repeat_without_clearing_witness :
  reports (run_op General SEAM_TO_BEVEL false
             (run_op General SEAM_TO_BEVEL false (demo_world false)).2).2
  = reports (demo_world false)
    ++ [(INFO, msg_of General
                 (count_source SEAM_TO_BEVEL (edit_mesh (demo_world false))
                    (selected_edges_of (edit_mesh (demo_world false)))));
        (INFO, msg_of General
                 (count_source SEAM_TO_BEVEL (edit_mesh (demo_world false))
                    (selected_edges_of (edit_mesh (demo_world false)))))].
Proof.
  exact (proj2 (proj2 (X11_repeat_without_clearing General SEAM_TO_BEVEL
                         (demo_world false))) eq_refl).
Defined.

(** X12. A finished run in which no selected edge satisfies the source
    predicate reports a count of 0 and leaves every edge as it was. *)
Theorem X12_nothing_to_convert
  (o : Operator) (ct : ConversionType) (co : bool) (w : World) :
  valid_target w ->
  selected_edges_of (edit_mesh w) ≠ [] ->
  (forall i e, edges (edit_mesh w) !! i = Some e -> select e = true ->
               source_predicate ct e = false) ->
  exists w',
    run_op o ct co w = (inr FINISHED, w')
    /\ edges (edit_mesh w') = edges (edit_mesh w)
    /\ reports w' = reports w ++ [(INFO, msg_of o 0)].
Proof.
  intros Hv Hne Hnone.
  destruct (run_op_shape o ct co w) as [Hobj | _ Hsel | w' _ _ Hp].
  - unfold valid_target in Hv. congruence.
  - contradiction.
  - destruct Hp as [_ _ Hmesh Hr _].
    exists w'. split; [reflexivity|]. split.
    + rewrite Hmesh. apply list_eq. intros i.
      destruct (edges (edit_mesh w) !! i) as [e|] eqn:He.
      * rewrite (converted_mesh_lookup ct co _ i e He). f_equal.
        destruct (select e) eqn:Hs; [|reflexivity].
        unfold convert_edge. by rewrite (Hnone i e He Hs).
      * unfold converted_mesh, convert_selected. simpl.
        by rewrite list_lookup_fmap, He.
    + rewrite Hr. do 3 f_equal. unfold count_source.
      rewrite (List.filter_ext_in _ (fun _ => false)).
      { by rewrite List.filter_false. }
      intros j Hj.
      apply list_elem_of_In, elem_of_selected_edges_of in Hj as (e & He & Hs).
      unfold satisfies_source. rewrite He. simpl. by apply (Hnone j e).
Qed.

Lemma X12_nothing_to_convert_witness :
  exists w',
    run_op General SHARP_TO_SEAM true plain_world = (inr FINISHED, w')
    /\ edges (edit_mesh w') = edges (edit_mesh plain_world)
    /\ reports w' = reports plain_world ++ [(INFO, msg_of General 0)].
Proof.
  refine (X12_nothing_to_convert General SHARP_TO_SEAM true plain_world eq_refl _ _).
  - discriminate.
  - intros [|[|i]] e He Hs; simpl in He; try discriminate;
      injection He as <-; [reflexivity | discriminate].
Defined.

(** ** [ensure_bevel_layer] on any host *)

(** X13. [ensure_bevel_layer] never raises.  It returns the dedicated layer
    where the host has one and the float layer "bevel_weight_edge" otherwise,
    and the mesh holds that layer afterwards; it adds nothing else, removes
    no layer, and touches no edge, report or mode.  Calling it again returns
    the same layer, leaves the mesh as it is and allocates nothing. *)
Theorem X13_ensure_bevel_layer_total_and_idempotent (w : World) :
  let h := if has_bevel_weight_attr (edit_mesh w) then LayerBevelWeight
           else LayerFloat "bevel_weight_edge" in
  exists w1 w2,
    ensure_bevel_layer w = (inr h, w1)
    /\ ensure_bevel_layer w1 = (inr h, w2)
    /\ edge_layers (edit_mesh w1) = {[ h ]} ∪ edge_layers (edit_mesh w)
    /\ edges (edit_mesh w1) = edges (edit_mesh w)
    /\ (active_object w1, mode w1, reports w1) = (active_object w, mode w, reports w)
    /\ edit_mesh w2 = edit_mesh w1
    /\ calls w2
       = calls w1 ++ [if has_bevel_weight_attr (edit_mesh w)
                      then layers_bevel_weight_verify_call
                      else layers_float_get_call "bevel_weight_edge"].
Proof.
  intros h. exists (ensured_world w), (ensured_world (ensured_world w)).
  assert (Hh : bevel_layer_of (edit_mesh w) = h) by reflexivity.
  assert (Hh1 : bevel_layer_of (edit_mesh (ensured_world w)) = h) by reflexivity.
  rewrite !ensure_bevel_layer_run, Hh, Hh1.
  repeat split.
  - unfold ensured_world at 1. cbn [edit_mesh]. rewrite Hh1.
    unfold ensured_world. cbn [edit_mesh]. rewrite Hh. apply add_layer_idem.
  - unfold ensured_world at 1. cbn [calls]. f_equal.
    unfold ensure_calls, ensured_world. cbn [edit_mesh]. rewrite Hh.
    cbn [has_bevel_weight_attr add_layer edge_layers].
    destruct (has_bevel_weight_attr (edit_mesh w)) eqn:Hattr; [reflexivity|].
    subst h. rewrite decide_True; [reflexivity|].
    by apply elem_of_union_l, elem_of_singleton_2.
Qed.

(** ** The panels' [poll] and the operators' guard *)

(** X14. Both panels have the same [poll], and it is the opposite of the
    guard the operators start with: where a panel is shown, no operator
    answers with the "select a mesh" warning; where it is hidden, every
    operator does, and does nothing else. *)
Theorem X14_poll_matches_guard (w : World) :
  VIEW3D_PT_edge_conversion_tools.poll w
  = VIEW3D_PT_edge_conversion_object_tools.poll w
  /\ VIEW3D_PT_edge_conversion_tools.poll w = negb (not_a_mesh (active_object w))
  /\ (VIEW3D_PT_edge_conversion_tools.poll w = false ->
      forall o ct co,
        run_op o ct co w
        = (inr CANCELLED, add_report (WARNING, msg_select_mesh) w))
  /\ (VIEW3D_PT_edge_conversion_tools.poll w = true ->
      forall o ct co,
        last (reports (run_op o ct co w).2) ≠ Some (WARNING, msg_select_mesh)).
Proof.
  assert (Hpoll : VIEW3D_PT_edge_conversion_tools.poll w
                  = negb (not_a_mesh (active_object w))).
  { unfold VIEW3D_PT_edge_conversion_tools.poll, not_a_mesh.
    destruct (active_object w) as [obj|]; [|reflexivity].
    by rewrite negb_involutive. }
  split; [reflexivity|]. split; [exact Hpoll|]. split.
  - intros Hp o ct co. rewrite Hpoll in Hp. apply negb_false_iff in Hp.
    destruct o; simpl;
      [by apply execute_invalid | by apply quick_execute_invalid].
  - intros Hp o ct co. rewrite Hpoll in Hp. apply negb_true_iff in Hp.
    destruct (run_op_shape o ct co w) as [Hobj | Hv Hsel | w' Hv Hne Hpost]; simpl.
    + congruence.
    + rewrite last_snoc. discriminate.
    + destruct Hpost as [_ _ _ Hr _]. rewrite Hr, last_snoc. discriminate.
Qed.

Lemma X14_poll_matches_guard_witness :
  run_op Quick SEAM_TO_SHARP false curve_world
  = (inr CANCELLED, add_report (WARNING, msg_select_mesh) curve_world).
Proof.
  exact (proj1 (proj2 (proj2 (X14_poll_matches_guard curve_world))) eq_refl
           Quick SEAM_TO_SHARP false).
Defined.

(** * Registration *)

Module RegistrationFacts.
Import Registration.

Lemma Bpy_eq (b b' : Bpy) :
  scene_props b = scene_props b' -> registered b = registered b' -> b = b'.
Proof. destruct b, b'; simpl; intros; subst; reflexivity. Qed.

Lemma filter_out_absent (cls : string) (l : list string) :
  cls ∉ l -> List.filter (fun c => negb (String.eqb c cls)) l = l.
Proof.
  induction l as [|c l IH]; intros Hnin; simpl; [reflexivity|].
  apply not_elem_of_cons in Hnin as [Hne Hnin].
  destruct (String.eqb c cls) eqn:Heq; simpl.
  - apply String.eqb_eq in Heq. congruence.
  - by rewrite IH.
Qed.

Lemma filter_out_last (cls : string) (l : list string) :
  cls ∉ l -> List.filter (fun c => negb (String.eqb c cls)) (l ++ [cls]) = l.
Proof.
  intros Hnin. rewrite List.filter_app, (filter_out_absent cls l Hnin). simpl.
  rewrite String.eqb_refl. simpl. apply app_nil_r.
Qed.

Lemma register_all (l : list string) :
  forall props regs,
    NoDup l ->
    (forall c, c ∈ l -> c ∉ regs) ->
    for_each l register_class (mkBpy props regs)
    = (inr tt, mkBpy props (regs ++ l)).
Proof.
  induction l as [|c l IH]; intros props regs Hnd Hfresh.
  - simpl. unfold rret. by rewrite app_nil_r.
  - apply NoDup_cons in Hnd as [Hc Hnd].
    simpl. unfold rbind, register_class at 1. simpl.
    rewrite decide_False by (apply Hfresh; by left).
    rewrite IH; [by rewrite <- app_assoc | exact Hnd |].
    intros c' Hc' [Hin | ->%list_elem_of_singleton]%elem_of_app.
    + by apply (Hfresh c'); [right|].
    + contradiction.
Qed.

Lemma unregister_all (l : list string) :
  forall props regs,
    NoDup l ->
    (forall c, c ∈ l -> c ∉ regs) ->
    for_each (rev l) unregister_class (mkBpy props (regs ++ l))
    = (inr tt, mkBpy props regs).
Proof.
  induction l as [|c l IH] using rev_ind; intros props regs Hnd Hfresh.
  - simpl. unfold rret. by rewrite app_nil_r.
  - apply NoDup_app in Hnd as (Hnd & Hdisj & _).
    rewrite rev_app_distr. simpl.
    unfold rbind, unregister_class at 1. simpl.
    rewrite decide_True by (rewrite !elem_of_app, list_elem_of_singleton; auto).
    rewrite app_assoc, filter_out_last.
    + apply IH; [exact Hnd|]. intros c' Hc'. apply Hfresh.
      apply elem_of_app. by left.
    + intros [Hin | Hin]%elem_of_app.
      * apply (Hfresh c); [|exact Hin]. apply elem_of_app. right.
        by apply list_elem_of_singleton.
      * apply (Hdisj c Hin). by apply list_elem_of_singleton.
Qed.

Lemma NoDup_classes : NoDup classes.
Proof. refine (bool_decide_unpack _ _). vm_compute. exact I. Qed.

Lemma register_run (b : Bpy) :
  (forall c, c ∈ classes -> c ∉ registered b) ->
  register b
  = (inr tt, mkBpy ({[ "edge_clear_original" ]} ∪ scene_props b)
               (registered b ++ classes)).
Proof.
  intros Hfresh. unfold register, rbind, init_properties, set_scene_prop.
  apply register_all; [apply NoDup_classes | exact Hfresh].
Qed.

Lemma other_bpy_fresh : forall c, c ∈ classes -> c ∉ registered other_bpy.
Proof.
  intros c Hc Hin. apply list_elem_of_singleton in Hin. subst c.
  revert Hc. refine (bool_decide_unpack (_ ∉ _) _). vm_compute. exact I.
Qed.

Lemma other_bpy_no_prop : "edge_clear_original" ∉ scene_props other_bpy.
Proof. refine (bool_decide_unpack _ _). vm_compute. exact I. Qed.

(** X15. Enabling and then disabling the add-on leaves the host as it was.
    On a host where none of the seven classes is registered and the scene
    property is not defined, [register] succeeds, defines the property and
    registers the classes in the order of [classes]; [unregister] then
    succeeds and gives back the host [register] started from. *)
Theorem X15_register_then_unregister (b : Bpy) :
  (forall c, c ∈ classes -> c ∉ registered b) ->
  "edge_clear_original" ∉ scene_props b ->
  exists b1,
    register b = (inr tt, b1)
    /\ registered b1 = registered b ++ classes
    /\ scene_props b1 = {[ "edge_clear_original" ]} ∪ scene_props b
    /\ unregister b1 = (inr tt, b).
Proof.
  intros Hfresh Hprop. eexists. split; [by apply register_run|].
  split; [reflexivity|]. split; [reflexivity|].
  unfold unregister, rbind.
  rewrite (unregister_all classes _ _ NoDup_classes Hfresh).
  unfold clear_properties, try_pass, del_scene_prop. simpl.
  rewrite decide_True by (by apply elem_of_union_l, elem_of_singleton_2).
  f_equal. apply Bpy_eq; simpl; [|reflexivity].
  apply set_eq. intros q.
  rewrite elem_of_difference, elem_of_union, elem_of_singleton.
  split; [intros [[->|Hq] Hne]; [contradiction|exact Hq] |].
  intros Hq. split; [by right|]. intros ->. contradiction.
Qed.

Lemma X15_register_then_unregister_witness :
  exists b1,
    register other_bpy = (inr tt, b1)
    /\ registered b1 = registered other_bpy ++ classes
    /\ scene_props b1 = {[ "edge_clear_original" ]} ∪ scene_props other_bpy
    /\ unregister b1 = (inr tt, other_bpy).
Proof.
  exact (X15_register_then_unregister other_bpy other_bpy_fresh other_bpy_no_prop).
Defined.

(** X16. [clear_properties] never raises: it removes the scene property when
    it is defined and does nothing when it is not, so doing it again changes
    nothing.  It touches no other property and no class. *)
Theorem X16_clear_properties_swallows (b : Bpy) :
  exists b',
    clear_properties b = (inr tt, b')
    /\ registered b' = registered b
    /\ ("edge_clear_original" ∉ scene_props b')
    /\ (forall q, q ≠ "edge_clear_original" ->
                  (q ∈ scene_props b' <-> q ∈ scene_props b))
    /\ ("edge_clear_original" ∉ scene_props b -> b' = b)
    /\ clear_properties b' = (inr tt, b').
Proof.
  unfold clear_properties, try_pass, del_scene_prop.
  destruct (decide ("edge_clear_original" ∈ scene_props b)) as [Hin|Hnin].
  - eexists. split; [reflexivity|]. simpl.
    assert (Hgone : "edge_clear_original"
                    ∉ (scene_props b ∖ {[ "edge_clear_original" ]})).
    { rewrite elem_of_difference, elem_of_singleton. tauto. }
    repeat split; try assumption.
    + by intros [? _]%elem_of_difference.
    + intros Hq. apply elem_of_difference. split; [exact Hq|].
      by rewrite elem_of_singleton.
    + contradiction.
    + by rewrite decide_False.
  - exists b. rewrite decide_False by assumption. by repeat split.
Qed.

(** X17. Enabling twice.  After a successful [register], a second [register]
    raises ValueError at the first class; the classes stay registered once
    and the scene property stays defined. *)
Theorem X17_register_twice (b : Bpy) :
  (forall c, c ∈ classes -> c ∉ registered b) ->
  exists b1,
    register b = (inr tt, b1)
    /\ register b1 = (inl ValueError, b1).
Proof.
  intros Hfresh. eexists. split; [by apply register_run|].
  unfold register, rbind, init_properties, set_scene_prop. simpl.
  unfold rbind, register_class at 1. simpl.
  rewrite decide_True.
  - f_equal. apply Bpy_eq; simpl; [|reflexivity].
    by rewrite (assoc_L (∪)), union_idemp_L.
  - apply elem_of_app. right. by left.
Qed.

Lemma X17_register_twice_witness :
  exists b1,
    register other_bpy = (inr tt, b1)
    /\ register b1 = (inl ValueError, b1).
Proof.
  exact (X17_register_twice other_bpy other_bpy_fresh).
Defined.

(** X18. Disabling what is not enabled.  [unregister] starts with the last
    class of [classes]; where that class is not registered it raises
    RuntimeError at once and changes nothing: no class is unregistered and
    [clear_properties] is not reached, so the scene property, if defined,
    stays. *)
Theorem X18_unregister_not_registered (b : Bpy) :
  "VIEW3D_PT_edge_conversion_object_tools" ∉ registered b ->
  unregister b = (inl RuntimeError, b).
Proof.
  intros Hnin. unfold unregister, rbind. simpl.
  unfold rbind, unregister_class at 1. by rewrite decide_False.
Qed.

Lemma X18_unregister_not_registered_witness :
  unregister other_bpy = (inl RuntimeError, other_bpy).
Proof.
  refine (X18_unregister_not_registered other_bpy _).
  apply other_bpy_fresh.
  refine (bool_decide_unpack _ _). vm_compute. exact I.
Defined.

End RegistrationFacts.

(** * The exact log of a finished run *)

Lemma log_write_run (c : HostCall) (f : BMEdge -> BMEdge) (i : nat)
  (w : World) (e : BMEdge) :
  edges (edit_mesh w) !! i = Some e ->
  exists w',
    (log c ;; edge_write f i) w = (inr tt, w')
    /\ calls w' = calls w ++ [c]
    /\ edges (edit_mesh w') !! i = Some (f e).
Proof.
  intros He. unfold bind at 1. unfold log.
  rewrite (edge_write_run f i (add_call c w) e He).
  eexists. split; [reflexivity|]. split; [reflexivity|].
  simpl. apply list_lookup_insert_eq. by eapply lookup_lt_Some.
Qed.

Ltac log_write He c f :=
  let w1 := fresh "w" in
  let Hrun := fresh "Hrun" in
  let Hc := fresh "Hcalls" in
  let He1 := fresh "He" in
  destruct (log_write_run c f _ _ _ He) as (w1 & Hrun & Hc & He1);
  rewrite (bind_run _ _ _ _ _ Hrun); clear Hrun.

Lemma body_calls (ct : ConversionType) (co : bool) (bw : option BMLayerItem)
  (i c : nat) (w : World) (e : BMEdge) :
  edges (edit_mesh w) !! i = Some e ->
  (touches_bevel ct = true -> is_Some bw) ->
  calls (body ct co bw i c w).2 = calls w ++ edge_writes ct co bw i e.
Proof.
  intros He Hbw. unfold edge_writes.
  destruct ct; simpl in Hbw; unfold source_predicate, isSharp, isSeam.
  - destruct (Hbw eq_refl) as [l ->]. rewrite body_SHARP_TO_BEVEL.
    unfold MESH_OT_quick_convert_sharp_to_bevel.body, edge_smooth.
    rewrite (bind_run _ _ _ _ _ (edge_read_run smooth i w e He)).
    destruct (smooth e); simpl; [by rewrite app_nil_r|].
    unfold edge_setitem.
    log_write He (edge_setitem_call i l 1%float) (with_item l 1%float).
    destruct co; simpl; [|exact Hcalls].
    unfold edge_set_smooth.
    log_write He0 (edge_set_smooth_call i true) (with_smooth true).
    simpl. by rewrite Hcalls0, Hcalls, <- app_assoc.
  - rewrite body_SHARP_TO_SEAM.
    unfold MESH_OT_quick_convert_sharp_to_seam.body, edge_smooth.
    rewrite (bind_run _ _ _ _ _ (edge_read_run smooth i w e He)).
    destruct (smooth e); simpl; [by rewrite app_nil_r|].
    unfold edge_set_seam.
    log_write He (edge_set_seam_call i true) (with_seam true).
    destruct co; simpl; [|exact Hcalls].
    unfold edge_set_smooth.
    log_write He0 (edge_set_smooth_call i true) (with_smooth true).
    simpl. by rewrite Hcalls0, Hcalls, <- app_assoc.
  - rewrite body_SEAM_TO_SHARP.
    unfold MESH_OT_quick_convert_seam_to_sharp.body, edge_seam.
    rewrite (bind_run _ _ _ _ _ (edge_read_run seam i w e He)).
    destruct (seam e); simpl; [|by rewrite app_nil_r].
    unfold edge_set_smooth.
    log_write He (edge_set_smooth_call i false) (with_smooth false).
    destruct co; simpl; [|exact Hcalls].
    unfold edge_set_seam.
    log_write He0 (edge_set_seam_call i false) (with_seam false).
    simpl. by rewrite Hcalls0, Hcalls, <- app_assoc.
  - destruct (Hbw eq_refl) as [l ->]. rewrite body_SEAM_TO_BEVEL.
    unfold MESH_OT_quick_convert_seam_to_bevel.body, edge_seam.
    rewrite (bind_run _ _ _ _ _ (edge_read_run seam i w e He)).
    destruct (seam e); simpl; [|by rewrite app_nil_r].
    unfold edge_setitem.
    log_write He (edge_setitem_call i l 1%float) (with_item l 1%float).
    destruct co; simpl; [|exact Hcalls].
    unfold edge_set_seam.
    log_write He0 (edge_set_seam_call i false) (with_seam false).
    simpl. by rewrite Hcalls0, Hcalls, <- app_assoc.
Qed.

Lemma pass_writes_ext (ct : ConversionType) (co : bool) (bw : option BMLayerItem)
  (bm bm' : BMesh) (sel : list nat) :
  (forall j, j ∈ sel -> edges bm' !! j = edges bm !! j) ->
  pass_writes ct co bw bm' sel = pass_writes ct co bw bm sel.
Proof.
  unfold pass_writes. induction sel as [|i sel IH]; intros H; simpl; [reflexivity|].
  rewrite (H i) by (by left). f_equal. apply IH. intros j Hj. apply H. by right.
Qed.

Lemma for_edges_calls (ct : ConversionType) (co : bool) (bw : option BMLayerItem)
  (sel : list nat) :
  (touches_bevel ct = true -> is_Some bw) ->
  forall (c : nat) (w : World),
    NoDup sel ->
    (forall i, i ∈ sel -> is_Some (edges (edit_mesh w) !! i)) ->
    calls (for_edges sel (body ct co bw) c w).2
    = calls w ++ pass_writes ct co bw (edit_mesh w) sel.
Proof.
  intros Hbw. induction sel as [|i rest IH]; intros c w Hnd Hvalid.
  - simpl. by rewrite app_nil_r.
  - apply NoDup_cons in Hnd as [Hi Hnd].
    destruct (Hvalid i) as [e He]; [by left|].
    destruct (body_run ct co bw i c w e He Hbw) as (w1 & Hrun & Hst).
    pose proof (body_calls ct co bw i c w e He Hbw) as Hcalls.
    rewrite Hrun in Hcalls. simpl in Hcalls.
    destruct Hst as [_ _ _ _ _ Hes _].
    assert (Hrest : forall j, j ∈ rest ->
              edges (edit_mesh w1) !! j = edges (edit_mesh w) !! j).
    { intros j Hj. rewrite Hes. apply list_lookup_insert_ne.
      intros Heq. subst j. contradiction. }
    cbn [for_edges]. rewrite (bind_run _ _ _ _ _ Hrun).
    rewrite IH; [|exact Hnd|].
    + rewrite Hcalls, (pass_writes_ext ct co bw _ _ rest Hrest), <- app_assoc.
      unfold pass_writes. simpl. by rewrite He.
    + intros j Hj. rewrite (Hrest j Hj). apply Hvalid. by right.
Qed.

Lemma main_pass_calls (msg : nat -> string) (ct : ConversionType) (co : bool)
  (bw : option BMLayerItem) (w1 : World) :
  selected_edges_of (edit_mesh w1) ≠ [] ->
  (touches_bevel ct = true -> is_Some bw) ->
  calls (main_pass msg ct co bw w1).2
  = calls w1 ++ [edges_iter_call]
    ++ pass_writes ct co bw (edit_mesh w1) (selected_edges_of (edit_mesh w1))
    ++ [update_edit_mesh_call].
Proof.
  intros Hne Hbw.
  assert (Hvalid : forall i, i ∈ selected_edges_of (edit_mesh w1) ->
            is_Some (edges (edit_mesh (add_call edges_iter_call w1)) !! i)).
  { intros i (e & He & _)%elem_of_selected_edges_of. simpl. eauto. }
  pose proof (for_edges_calls ct co bw (selected_edges_of (edit_mesh w1)) Hbw 0
                (add_call edges_iter_call w1) (NoDup_select_from _ _) Hvalid)
    as Hcalls.
  destruct (for_edges_run ct co bw (selected_edges_of (edit_mesh w1)) Hbw 0
              (add_call edges_iter_call w1) (NoDup_select_from _ _) Hvalid)
    as (w3 & Hloop & _).
  rewrite Hloop in Hcalls. simpl in Hcalls.
  unfold main_pass, collect_selected_edges.
  unfold bind at 1. unfold bind at 1. unfold log at 1.
  unfold bind at 1. unfold get_world at 1. unfold ret at 1.
  cbn [edit_mesh add_call].
  destruct (selected_edges_of (edit_mesh w1)) as [|i sel] eqn:Hsel; [done|].
  rewrite (bind_run _ _ _ _ _ Hloop).
  unfold bind, update_edit_mesh, log, report, ret.
  cbn [snd calls add_report add_call]. rewrite Hcalls. by rewrite <- !app_assoc.
Qed.

Lemma length_edge_writes (ct : ConversionType) (co : bool)
  (bw : option BMLayerItem) (i : nat) (e : BMEdge) :
  (touches_bevel ct = true -> is_Some bw) ->
  length (edge_writes ct co bw i e)
  = if source_predicate ct e then (if co then 2 else 1) else 0.
Proof.
  intros Hbw. unfold edge_writes.
  destruct (source_predicate ct e); [|reflexivity].
  destruct ct; simpl in Hbw; try (destruct (Hbw eq_refl) as [l ->]);
    by destruct co.
Qed.

Lemma length_pass_writes (ct : ConversionType) (co : bool)
  (bw : option BMLayerItem) (bm : BMesh) (sel : list nat) :
  (touches_bevel ct = true -> is_Some bw) ->
  length (pass_writes ct co bw bm sel)
  = (if co then 2 else 1) * count_source ct bm sel.
Proof.
  intros Hbw. unfold pass_writes, count_source.
  induction sel as [|i sel IH]; simpl; [lia|].
  rewrite length_app, IH. unfold satisfies_source.
  destruct (edges bm !! i) as [e|]; simpl.
  - rewrite (length_edge_writes ct co bw i e Hbw).
    destruct (source_predicate ct e); simpl; destruct co; lia.
  - lia.
Qed.

Lemma forallb_edge_writes (ct : ConversionType) (co : bool)
  (bw : option BMLayerItem) (bm : BMesh) (sel : list nat) :
  forallb is_edge_write (pass_writes ct co bw bm sel) = true.
Proof.
  unfold pass_writes. induction sel as [|i sel IH]; simpl; [reflexivity|].
  rewrite forallb_app, IH, andb_true_r.
  destruct (edges bm !! i) as [e|]; simpl; [|reflexivity].
  unfold edge_writes. destruct (source_predicate ct e); [|reflexivity].
  by destruct ct, bw, co.
Qed.

(** X19. The whole log of a finished run.  On a mesh target with a
    non-empty selection the host calls of a run are, in this order: the
    switch to edit mode if needed, [from_edit_mesh], the layer calls of a
    bevel rule, the one enumeration of the edges, then for each selected
    edge in mesh order that satisfied the source predicate when the operator
    was called its destination write followed, when the clear flag is on, by
    its clearing write, and last [update_edit_mesh].  So a converted edge is
    written once, or twice when clearing, and no other edge is written. *)
Theorem X19_log_of_a_finished_run
  (o : Operator) (ct : ConversionType) (co : bool) (w : World) :
  valid_target w ->
  selected_edges_of (edit_mesh w) ≠ [] ->
  let writes := pass_writes ct co (bw_layer_for ct (edit_mesh w)) (edit_mesh w)
                  (selected_edges_of (edit_mesh w)) in
  new_calls w (run_op o ct co w).2
  = prologue_calls ct w ++ [edges_iter_call] ++ writes ++ [update_edit_mesh_call]
  /\ List.filter is_edge_write (new_calls w (run_op o ct co w).2) = writes
  /\ length writes
     = (if co then 2 else 1)
       * count_source ct (edit_mesh w) (selected_edges_of (edit_mesh w)).
Proof.
  intros Hv Hne writes.
  assert (Hbw : touches_bevel ct = true -> is_Some (bw_layer_for ct (edit_mesh w)))
    by apply bw_layer_for_Some.
  assert (Hnew : new_calls w (run_op o ct co w).2
                 = prologue_calls ct w ++ [edges_iter_call] ++ writes
                   ++ [update_edit_mesh_call]).
  { apply new_calls_app.
    assert (Hmain : forall msg,
              calls (main_pass msg ct co (bw_layer_for ct (edit_mesh w))
                       (prologue_world ct w)).2
              = calls w ++ prologue_calls ct w ++ [edges_iter_call] ++ writes
                ++ [update_edit_mesh_call]).
    { intros msg. rewrite main_pass_calls; [|by simpl; rewrite selected_ensured_mesh|exact Hbw].
      cbn [calls edit_mesh prologue_world]. rewrite selected_ensured_mesh.
      rewrite (pass_writes_ext ct co _ (edit_mesh w) (ensured_mesh ct (edit_mesh w)))
        by (intros j _; by rewrite edges_ensured_mesh).
      by rewrite <- !app_assoc. }
    destruct o; simpl.
    - rewrite (execute_prologue ct co w Hv). apply Hmain.
    - rewrite (quick_execute_prologue ct co w Hv). apply Hmain. }
  split; [exact Hnew|]. split.
  - rewrite Hnew, !List.filter_app.
    rewrite filter_prologue_calls; [|by intros []|reflexivity].
    assert (Hall : List.filter is_edge_write writes = writes).
    { apply List.forallb_filter_id, forallb_edge_writes. }
    rewrite Hall. simpl.
    destruct (negb (String.eqb (mode w) "EDIT_MESH")); simpl; by rewrite app_nil_r.
  - by apply length_pass_writes.
Qed.

Lemma X19_log_of_a_finished_run_witness :
  new_calls (demo_world true) (run_op General SHARP_TO_SEAM true (demo_world true)).2
  = [mode_set_call "EDIT"; from_edit_mesh_call; edges_iter_call;
     edge_set_seam_call 0 true; edge_set_smooth_call 0 true;
     update_edit_mesh_call].
Proof.
  refine (proj1 (X19_log_of_a_finished_run General SHARP_TO_SEAM true
                   (demo_world true) eq_refl _)).
  discriminate.
Defined.
